(** * A shallow embedding of the MinesMultiplayer game server

    This file models [src/gameManager.js] (class [GameManager]) and the
    socket handlers of [src/server.js] that drive it.  [server.js] holds two
    concatenated revisions of the same module; the handlers below follow the
    later one (its lines 211-467).

    The mutable JavaScript state of a [GameManager] instance and of the
    runtime becomes an explicit [World]:
    - [games]   : the [this.games] Map (insertion ordered, so an
                  association list);
    - [timers]  : the [this.timers] Map from a game id to an interval handle;
    - [live]    : the intervals created by [setInterval] that have not been
                  passed to [clearInterval], each with its closure state
                  (the captured countdown [timeLeft] and [onComplete]);
    - [next_iv] : the next fresh interval handle;
    - [pending] : the [setTimeout(..., 5000)] deletions scheduled by
                  [endGame], in firing order. *)

From Stdlib Require Import List ZArith String Bool Lia Sorted Permutation.
Import ListNotations.

Open Scope Z_scope.

(** ** JavaScript Maps and plain objects used as maps *)

Module JsMap.

Section Ops.
Context {V : Type}.

(** [m.get(k)] *)
Fixpoint map_get (k : string) (m : list (string * V)) : option V :=
  match m with
  | [] => None
  | (k', v) :: m' => if String.eqb k k' then Some v else map_get k m'
  end.

(** [m.set(k, v)]: an existing key keeps its position, a new key goes last. *)
Fixpoint map_set (k : string) (v : V) (m : list (string * V)) : list (string * V) :=
  match m with
  | [] => [(k, v)]
  | (k', v') :: m' =>
      if String.eqb k k' then (k', v) :: m' else (k', v') :: map_set k v m'
  end.

(** [m.delete(k)] *)
Definition map_delete (k : string) (m : list (string * V)) : list (string * V) :=
  filter (fun kv => negb (String.eqb k (fst kv))) m.

End Ops.

End JsMap.

Import JsMap.

(** ** Data model *)

Inductive Phase := Placement | Gameplay | Ended.
Inductive Status := Waiting | InProgress | Completed.

Definition Phase_eqb (a b : Phase) : bool :=
  match a, b with
  | Placement, Placement | Gameplay, Gameplay | Ended, Ended => true
  | _, _ => false
  end.

(** A bomb grid as the client (or [autoPlaceBombs]) supplies it: rows of
    numbers; a cell holding [1] is a bomb. *)
Definition Grid := list (list Z).

(** [state.revealedFields]: rows of JS array slots; [None] is a hole
    (reads as [undefined]), [Some b] a stored boolean. *)
Definition Revealed := list (list (option bool)).

Record GameState := mkState {
  phase : Phase;
  round : Z;
  timeLeft : Z;
  currentPlayer : option string;          (* null is [None] *)
  playerBombs : list (string * Grid);     (* always {} *)
  revealedFields : Revealed
}.

Record Game := mkGame {
  id : string;
  creator : string;
  opponent : option string;                (* null until joined *)
  size : string;
  bombs : Z;
  betAmount : Z;
  gameWallet : string;
  gameWalletSecret : list Z;
  status : Status;
  createdAt : Z;
  state : GameState;
  bothPlayersReady : bool;
  bombPlacements : list (string * Grid)    (* a plain object keyed by player id *)
}.

(** The [onComplete] closures passed to [startTimer]. *)
Inductive Callback := OnPlacement | OnRound.

Record Interval := mkIv {
  iv_id : nat;
  iv_game : string;
  iv_left : Z;
  iv_cb : Callback
}.

Record World := mkWorld {
  games : list (string * Game);
  timers : list (string * nat);
  live : list Interval;
  next_iv : nat;
  pending : list string
}.

Definition init_world : World := mkWorld [] [] [] 0 [].

(** Functional record updates. *)
Definition with_games (gs : list (string * Game)) (w : World) : World :=
  mkWorld gs (timers w) (live w) (next_iv w) (pending w).
Definition with_pending (p : list string) (w : World) : World :=
  mkWorld (games w) (timers w) (live w) (next_iv w) p.

Definition set_state (s : GameState) (g : Game) : Game :=
  mkGame (id g) (creator g) (opponent g) (size g) (bombs g) (betAmount g)
    (gameWallet g) (gameWalletSecret g) (status g) (createdAt g) s
    (bothPlayersReady g) (bombPlacements g).
Definition set_status (st : Status) (g : Game) : Game :=
  mkGame (id g) (creator g) (opponent g) (size g) (bombs g) (betAmount g)
    (gameWallet g) (gameWalletSecret g) st (createdAt g) (state g)
    (bothPlayersReady g) (bombPlacements g).
Definition set_opponent (o : option string) (g : Game) : Game :=
  mkGame (id g) (creator g) o (size g) (bombs g) (betAmount g)
    (gameWallet g) (gameWalletSecret g) (status g) (createdAt g) (state g)
    (bothPlayersReady g) (bombPlacements g).
Definition set_ready (b : bool) (g : Game) : Game :=
  mkGame (id g) (creator g) (opponent g) (size g) (bombs g) (betAmount g)
    (gameWallet g) (gameWalletSecret g) (status g) (createdAt g) (state g)
    b (bombPlacements g).
Definition set_placements (bp : list (string * Grid)) (g : Game) : Game :=
  mkGame (id g) (creator g) (opponent g) (size g) (bombs g) (betAmount g)
    (gameWallet g) (gameWalletSecret g) (status g) (createdAt g) (state g)
    (bothPlayersReady g) bp.

Definition set_phase (p : Phase) (s : GameState) : GameState :=
  mkState p (round s) (timeLeft s) (currentPlayer s) (playerBombs s) (revealedFields s).
Definition set_timeLeft (t : Z) (s : GameState) : GameState :=
  mkState (phase s) (round s) t (currentPlayer s) (playerBombs s) (revealedFields s).
Definition set_current (c : option string) (s : GameState) : GameState :=
  mkState (phase s) (round s) (timeLeft s) c (playerBombs s) (revealedFields s).
Definition set_round (r : Z) (s : GameState) : GameState :=
  mkState (phase s) r (timeLeft s) (currentPlayer s) (playerBombs s) (revealedFields s).
Definition set_revealed (rv : Revealed) (s : GameState) : GameState :=
  mkState (phase s) (round s) (timeLeft s) (currentPlayer s) (playerBombs s) rv.

(** [this.games.get(gameId)] *)
Definition game_of (w : World) (g : string) : option Game := map_get g (games w).

(** [this.games.set(gameId, game)], also standing for an in-place mutation of
    the object stored under [gameId]. *)
Definition put_game (g : string) (gm : Game) (w : World) : World :=
  with_games (map_set g gm (games w)) w.

Definition update_game (g : string) (f : Game -> Game) (w : World) : World :=
  match game_of w g with
  | Some gm => put_game g (f gm) w
  | None => w
  end.

(** JavaScript truthiness of a nullable player id: null and "" are falsy. *)
Definition truthy_str (o : option string) : bool :=
  match o with Some s => negb (String.eqb s ""%string) | None => false end.

(** [a === b] between a nullable id and a string. *)
Definition opt_is (o : option string) (p : string) : bool :=
  match o with Some s => String.eqb s p | None => false end.

(** A nullable id used as an object key: [obj[null]] reads key "null". *)
Definition key_of (o : option string) : string :=
  match o with Some s => s | None => "null"%string end.

(** ** Intervals: [setInterval] / [clearInterval] and [startTimer] / [clearTimer] *)

Definition clearInterval (tid : nat) (l : list Interval) : list Interval :=
  filter (fun iv => negb (Nat.eqb (iv_id iv) tid)) l.

(** [clearTimer(gameId)]; an interval handle is an object, hence truthy. *)
Definition clearTimer (g : string) (w : World) : World :=
  match map_get g (timers w) with
  | Some tid =>
      mkWorld (games w) (map_delete g (timers w)) (clearInterval tid (live w))
        (next_iv w) (pending w)
  | None => w
  end.

(** [startTimer(gameId, seconds, onComplete)] *)
Definition startTimer (g : string) (seconds : Z) (cb : Callback) (w : World) : World :=
  let w1 := clearTimer g w in
  let tid := next_iv w1 in
  mkWorld (games w1) (map_set g tid (timers w1))
    (live w1 ++ [mkIv tid g seconds cb]) (S tid) (pending w1).

(** ** Exceptions: a state and exception monad

    A JavaScript [throw] does not roll back earlier mutations, so a failed
    computation still returns the state reached at the throw. *)

Inductive Exc :=
| ErrNotFound   (* 'Game not found' *)
| ErrFull       (* 'Game is full' *)
| ErrSelf       (* 'Cannot join your own game' *)
| ErrPhase      (* 'Game not in gameplay phase' *)
| ErrTurn       (* 'Not your turn' *)
| ErrRevealed   (* 'Field already revealed' *)
| ErrType       (* TypeError: reading a property of undefined *)
| ErrRange.     (* RangeError: Invalid array length *)

Definition M (A : Type) := World -> (Exc + A) * World.

Definition ret {A} (a : A) : M A := fun w => (inr a, w).
Definition bind {A B} (m : M A) (k : A -> M B) : M B :=
  fun w => match m w with
           | (inl e, w') => (inl e, w')
           | (inr a, w') => k a w'
           end.
Definition throw {A} (e : Exc) : M A := fun w => (inl e, w).
Definition modify (f : World -> World) : M unit := fun w => (inr tt, f w).
Definition lookup_game (g : string) : M (option Game) := fun w => (inr (game_of w g), w).

Notation "x <- m ;; k" := (bind m (fun x => k))
  (at level 61, m at next level, right associativity).
Notation "m ;;; k" := (bind m (fun _ => k))
  (at level 61, right associativity).

(** ** [GameManager] *)

(** [Math.random().toString(36).substring(2, 15)] twice: [r1] and [r2] are
    the base-36 renderings of the two random draws. *)
Definition generateGameId (r1 r2 : string) : string :=
  (substring 2 13 r1 ++ substring 2 13 r2)%string.

(** [parseInt(s.charAt(0))]: a digit, or NaN. *)
Definition parse_size (s : string) : option nat :=
  match s with
  | String c _ =>
      let n := Ascii.nat_of_ascii c in
      if (48 <=? n)%nat && (n <=? 57)%nat then Some (n - 48)%nat else None
  | EmptyString => None
  end.

Record GameData := mkData {
  gd_creator : string;
  gd_size : string;
  gd_bombs : Z;
  gd_betAmount : Z;
  gd_gameWallet : string;
  gd_gameWalletSecret : list Z
}.

(** [createGame(gameData)]: [Array(NaN)] throws a RangeError before the
    game is stored. *)
Definition createGame (d : GameData) (r1 r2 : string) (now : Z) : M Game :=
  let gameId := generateGameId r1 r2 in
  match parse_size (gd_size d) with
  | None => throw ErrRange
  | Some gridSize =>
      let game :=
        mkGame gameId (gd_creator d) None (gd_size d) (gd_bombs d) (gd_betAmount d)
          (gd_gameWallet d) (gd_gameWalletSecret d) Waiting now
          (mkState Placement 1 30 (Some (gd_creator d)) []
             (repeat (repeat (Some false) gridSize) gridSize))
          false [] in
      modify (put_game gameId game);;;
      ret game
  end.

(** [joinGame(gameId, playerId)] *)
Definition joinGame (g p : string) : M Game :=
  og <- lookup_game g;;
  match og with
  | None => throw ErrNotFound
  | Some game =>
      if truthy_str (opponent game) then throw ErrFull
      else if String.eqb (creator game) p then throw ErrSelf
      else
        let game' := set_status InProgress (set_opponent (Some p) game) in
        modify (put_game g game');;;
        ret game'
  end.

(** The projection built by [getOpenGames]. *)
Record OpenGame := mkOpen {
  o_id : string;
  o_creator : string;
  o_size : string;
  o_bombs : Z;
  o_betAmount : Z;
  o_status : Status;
  o_createdAt : Z
}.

Definition project (gm : Game) : OpenGame :=
  mkOpen (id gm) (creator gm) (size gm) (bombs gm) (betAmount gm) (status gm) (createdAt gm).

Definition is_waiting (gm : Game) : bool :=
  match status gm with Waiting => true | _ => false end.

(** [Array.prototype.sort] is stable; with the comparator
    [(a, b) => b.createdAt - a.createdAt] every stable sort returns the same
    list, computed here by insertion. *)
Fixpoint insert_desc (a : OpenGame) (l : list OpenGame) : list OpenGame :=
  match l with
  | [] => [a]
  | b :: l' =>
      if o_createdAt b - o_createdAt a <=? 0 then a :: b :: l'
      else b :: insert_desc a l'
  end.

Fixpoint sort_desc (l : list OpenGame) : list OpenGame :=
  match l with
  | [] => []
  | a :: l' => insert_desc a (sort_desc l')
  end.

(** [getOpenGames()] *)
Definition getOpenGames (w : World) : list OpenGame :=
  sort_desc (map project (filter is_waiting (map snd (games w)))).

(** [startGame(gameId)]: the placement timer. *)
Definition startGame (g : string) (w : World) : World :=
  match game_of w g with
  | None => w
  | Some _ => startTimer g 10 OnPlacement w
  end.

Fixpoint list_update {A} (i : nat) (f : A -> A) (l : list A) : list A :=
  match l, i with
  | [], _ => []
  | a :: l', O => f a :: l'
  | a :: l', S i' => a :: list_update i' f l'
  end.

(** [row[i] = v] on a JS array: past the end the array grows, with holes. *)
Fixpoint js_set {A} (i : nat) (v : A) (l : list (option A)) : list (option A) :=
  match l, i with
  | [], O => [Some v]
  | [], S i' => None :: js_set i' v []
  | _ :: l', O => Some v :: l'
  | a :: l', S i' => a :: js_set i' v l'
  end.

(** All cells [[x, y]] in the order of the two nested loops. *)
Definition positions (n : nat) : list (nat * nat) :=
  flat_map (fun x => map (fun y => (x, y)) (seq 0 n)) (seq 0 n).

(** The random-selection loop.  A draw [d] stands for [Math.random()], with
    [Math.floor(Math.random() * positions.length) = d mod positions.length]. *)
Fixpoint pick_bombs (k : nat) (draws : list nat) (pos : list (nat * nat)) (grid : Grid)
  : Grid * list nat :=
  match k with
  | O => (grid, draws)
  | S k' =>
      match pos with
      | [] => pick_bombs k' draws pos grid
      | _ :: _ =>
          let '(d, ds) := match draws with d :: ds => (d, ds) | [] => (0%nat, []) end in
          let idx := Nat.modulo d (List.length pos) in
          let '(x, y) := nth idx pos (0%nat, 0%nat) in
          let pos' := firstn idx pos ++ skipn (S idx) pos in
          pick_bombs k' ds pos' (list_update x (list_update y (fun _ => 1)) grid)
      end
  end.

Fixpoint place_missing (gridSize : nat) (nb : Z) (players : list string)
    (draws : list nat) (bp : list (string * Grid)) : list (string * Grid) :=
  match players with
  | [] => bp
  | p :: ps =>
      match map_get p bp with
      | Some _ => place_missing gridSize nb ps draws bp
      | None =>
          let '(grid, ds) :=
            pick_bombs (Z.to_nat nb) draws (positions gridSize)
              (repeat (repeat 0 gridSize) gridSize) in
          place_missing gridSize nb ps ds (map_set p grid bp)
      end
  end.

(** [autoPlaceBombs(gameId)].  The size was parsed successfully by
    [createGame]; an unparsable one cannot occur here. *)
Definition autoPlaceBombs (g : string) (draws : list nat) (w : World) : World :=
  match game_of w g with
  | None => w
  | Some game =>
      match parse_size (size game) with
      | None => w
      | Some gridSize =>
          let players :=
            filter (fun p => negb (String.eqb p ""%string))
              (creator game :: match opponent game with Some o => [o] | None => [] end) in
          let bp := place_missing gridSize (bombs game) players draws (bombPlacements game) in
          put_game g (set_ready true (set_placements bp game)) w
      end
  end.

(** [startGameplayPhase(gameId)] *)
Definition startGameplayPhase (g : string) (w : World) : World :=
  match game_of w g with
  | None => w
  | Some game =>
      let s := set_current (Some (creator game))
                 (set_timeLeft 5 (set_phase Gameplay (state game))) in
      startTimer g 5 OnRound (put_game g (set_state s game) w)
  end.

(** [confirmBombPlacement(gameId, playerId, bombs)] *)
Definition confirmBombPlacement (g p : string) (grid : Grid) (w : World) : World :=
  match game_of w g with
  | None => w
  | Some game =>
      let bp := map_set p grid (bombPlacements game) in
      let w1 := put_game g (set_placements bp game) w in
      if (List.length bp =? 2)%nat then
        let w2 := update_game g (set_ready true) w1 in
        startGameplayPhase g (clearTimer g w2)
      else w1
  end.

Inductive Content := Bomb | Coin.

(** The object returned by [revealField]. *)
Inductive RevealResult :=
| RevEnded (winner : option string) (content : Content)   (* { gameEnded: true, winner, content } *)
| RevContinue (content : Content).                         (* { gameEnded: false, content } *)

(** Truthiness of [row[y]] for a row of [revealedFields]. *)
Definition truthy_cell (o : option (option bool)) : bool :=
  match o with Some (Some true) => true | _ => false end.

(** [opponentBombs && opponentBombs[x] && opponentBombs[x][y] === 1] *)
Definition has_bomb (ob : option Grid) (x y : nat) : bool :=
  match ob with
  | Some grid =>
      match nth_error grid x with
      | Some row => match nth_error row y with Some v => Z.eqb v 1 | None => false end
      | None => false
      end
  | None => false
  end.

(** [playerId === game.creator ? game.opponent : game.creator] *)
Definition opponent_of (game : Game) (p : string) : option string :=
  if String.eqb p (creator game) then opponent game else Some (creator game).

(** [game.state.revealedFields[x][y] = true] *)
Definition mark_revealed (x y : nat) (game : Game) : Game :=
  set_state (set_revealed (list_update x (js_set y true) (revealedFields (state game)))
               (state game)) game.

(** The turn switch after a coin. *)
Definition switch_turn (opp : option string) (game : Game) : Game :=
  set_state (set_timeLeft 5 (set_round (round (state game) + 1)
               (set_current opp (state game)))) game.

(** [revealField(gameId, playerId, x, y)]; coordinates are array indices. *)
Definition revealField (g p : string) (x y : nat) : M RevealResult :=
  og <- lookup_game g;;
  match og with
  | None => throw ErrNotFound
  | Some game =>
      if negb (Phase_eqb (phase (state game)) Gameplay) then throw ErrPhase
      else if negb (opt_is (currentPlayer (state game)) p) then throw ErrTurn
      else
        match nth_error (revealedFields (state game)) x with
        | None => throw ErrType
        | Some row =>
            if truthy_cell (nth_error row y) then throw ErrRevealed
            else
              let opponentId := opponent_of game p in
              let opponentBombs := map_get (key_of opponentId) (bombPlacements game) in
              let hasBomb := has_bomb opponentBombs x y in
              let content := if hasBomb then Bomb else Coin in
              modify (update_game g (mark_revealed x y));;;
              if hasBomb then ret (RevEnded opponentId content)
              else
                modify (update_game g (switch_turn opponentId));;;
                modify (clearTimer g);;;
                modify (startTimer g 5 OnRound);;;
                ret (RevContinue content)
        end
  end.

(** [handleRoundTimeout(gameId)]: returns [{ winner }] and changes nothing. *)
Definition handleRoundTimeout (g : string) (w : World) : option (option string) * World :=
  match game_of w g with
  | None => (None, w)
  | Some game =>
      let winner := if opt_is (currentPlayer (state game)) (creator game)
                    then opponent game else Some (creator game) in
      (Some winner, w)
  end.

(** [endGame(gameId)] *)
Definition endGame (g : string) (w : World) : World :=
  match game_of w g with
  | None => w
  | Some game =>
      let game' := set_state (set_phase Ended (state game)) (set_status Completed game) in
      let w1 := clearTimer g (put_game g game' w) in
      with_pending (pending w1 ++ [g]) w1
  end.

(** [exitGame(gameId, playerId)] *)
Definition exitGame (g p : string) (w : World) : World :=
  match game_of w g with
  | None => w
  | Some game =>
      if String.eqb (creator game) p && negb (truthy_str (opponent game)) then endGame g w
      else if String.eqb (creator game) p || opt_is (opponent game) p then endGame g w
      else w
  end.

(** The loop of [handlePlayerDisconnect] over [this.games.entries()]; no
    entry is deleted during the loop, and [creator] and [opponent] are not
    changed by it, so re-reading each entry is what the iterator sees. *)
Fixpoint disconnect_loop (p : string) (ks : list string) (w : World) : World :=
  match ks with
  | [] => w
  | k :: ks' =>
      let w' := match game_of w k with
                | Some game =>
                    if String.eqb (creator game) p || opt_is (opponent game) p
                    then exitGame k p w else w
                | None => w
                end in
      disconnect_loop p ks' w'
  end.

Definition handlePlayerDisconnect (p : string) (w : World) : World :=
  disconnect_loop p (map fst (games w)) w.

Fixpoint cleanup_loop (now : Z) (ks : list string) (w : World) : World :=
  match ks with
  | [] => w
  | k :: ks' =>
      let w' := match game_of w k with
                | Some game => if now - createdAt game >? 30 * 60 * 1000
                               then endGame k w else w
                | None => w
                end in
      cleanup_loop now ks' w'
  end.

(** [cleanupOldGames()] *)
Definition cleanupOldGames (now : Z) (w : World) : World :=
  cleanup_loop now (map fst (games w)) w.

(** One firing of the interval [tid] created by [startTimer]: the part of
    the closure before [onComplete()], and whether [onComplete()] runs. *)
Definition tick_core (tid : nat) (w : World) : World * option (string * Callback) :=
  match find (fun iv => Nat.eqb (iv_id iv) tid) (live w) with
  | None => (w, None)
  | Some iv =>
      let g := iv_game iv in
      match game_of w g with
      | None => (clearTimer g w, None)
      | Some game =>
          let left := iv_left iv - 1 in
          let live' := map (fun iv' => if Nat.eqb (iv_id iv') tid
                                       then mkIv (iv_id iv') (iv_game iv') left (iv_cb iv')
                                       else iv') (live w) in
          let w1 := put_game g (set_state (set_timeLeft left (state game)) game)
                      (mkWorld (games w) (timers w) live' (next_iv w) (pending w)) in
          if left <=? 0 then (clearTimer g w1, Some (g, iv_cb iv)) else (w1, None)
      end
  end.

(** The [onComplete] closures. *)
Definition run_cb (g : string) (cb : Callback) (draws : list nat) (w : World) : World :=
  match cb with
  | OnPlacement => startGameplayPhase g (autoPlaceBombs g draws w)
  | OnRound => snd (handleRoundTimeout g w)
  end.

Definition tick (tid : nat) (draws : list nat) (w : World) : World :=
  match tick_core tid w with
  | (w1, Some (g, cb)) => run_cb g cb draws w1
  | (w1, None) => w1
  end.

(** ** The socket handlers of [server.js] and the runtime's events

    A handler's awaited calls to the payment service are folded into one
    boolean input telling whether they all succeeded; a failure is thrown
    and swallowed by the handler's [catch]. *)

Inductive Event :=
| EvCreate (d : GameData) (r1 r2 : string) (now : Z)     (* 'create-game' *)
| EvJoin (gid pid : string) (bet : Z) (funds_ok : bool)  (* 'join-game' *)
| EvConfirm (pid gid : string) (grid : Grid)             (* 'confirm-bomb-placement' *)
| EvReveal (pid gid : string) (x y : nat) (payout_ok : bool)  (* 'reveal-field' *)
| EvExit (pid gid : string)                              (* 'exit-game' *)
| EvDisconnect (pid : string)                            (* 'disconnect' *)
| EvTick (tid : nat) (draws : list nat)                  (* an interval fires *)
| EvFireDelete                                           (* the oldest 5 s timeout fires *)
| EvCleanup (now : Z).                                   (* [cleanupOldGames] *)

Definition on_create (d : GameData) (r1 r2 : string) (now : Z) (w : World) : World :=
  snd (createGame d r1 r2 now w).

Definition on_join (gid pid : string) (bet : Z) (funds_ok : bool) (w : World) : World :=
  match game_of w gid with
  | None => w
  | Some game =>
      match status game with
      | Waiting =>
          if truthy_str (opponent game) then w
          else if String.eqb (creator game) pid then w
          else if String.eqb pid ""%string then w
          else if (bet =? 0) || negb (bet =? betAmount game) then w
          else if negb funds_ok then w
          else match joinGame gid pid w with
               | (inl _, w') => w'
               | (inr _, w') => startGame gid w'
               end
      | _ => w
      end
  end.

Definition on_confirm (pid gid : string) (grid : Grid) (w : World) : World :=
  let w1 := confirmBombPlacement gid pid grid w in
  match game_of w1 gid with
  | Some game => if bothPlayersReady game then startGameplayPhase gid w1 else w1
  | None => w1
  end.

Definition on_reveal (pid gid : string) (x y : nat) (payout_ok : bool) (w : World) : World :=
  match revealField gid pid x y w with
  | (inl _, w') => w'
  | (inr (RevContinue _), w') => w'
  | (inr (RevEnded winner _), w') =>
      let needs_payout :=
        match game_of w' gid with Some _ => truthy_str winner | None => false end in
      if needs_payout && negb payout_ok then w'
      else endGame gid w'
  end.

Definition fire_delete (w : World) : World :=
  match pending w with
  | [] => w
  | g :: rest => with_pending rest (with_games (map_delete g (games w)) w)
  end.

Definition step (w : World) (e : Event) : World :=
  match e with
  | EvCreate d r1 r2 now => on_create d r1 r2 now w
  | EvJoin gid pid bet ok => on_join gid pid bet ok w
  | EvConfirm pid gid grid => on_confirm pid gid grid w
  | EvReveal pid gid x y ok => on_reveal pid gid x y ok w
  | EvExit pid gid => exitGame gid pid w
  | EvDisconnect pid => handlePlayerDisconnect pid w
  | EvTick tid draws => tick tid draws w
  | EvFireDelete => fire_delete w
  | EvCleanup now => cleanupOldGames now w
  end.

Definition run (w : World) (es : list Event) : World := fold_left step es w.

Definition reachable (w : World) : Prop := exists es, run init_world es = w.

(** ** Concrete scenarios *)

Definition dataA : GameData :=
  mkData "alice" "5x5" 3 1 "wallet" [7; 7].

(** [generateGameId "0.abcdefghijklm" "0.nopqrstuvwxy"] *)
Definition gidA : string := "abcdefghijklmnopqrstuvwxy".

Definition gridA : Grid :=
  [[1;0;0;0;0]; [0;1;0;0;0]; [0;0;1;0;0]; [0;0;0;0;0]; [0;0;0;0;0]].
Definition gridB : Grid :=
  [[0;0;0;0;1]; [0;0;0;1;0]; [0;0;1;0;0]; [0;0;0;0;0]; [0;0;0;0;0]].

(** Created by "alice", joined by "bob", both grids confirmed. *)
Definition scenario_play : list Event :=
  [ EvCreate dataA "0.abcdefghijklm" "0.nopqrstuvwxy" 1000;
    EvJoin gidA "bob" 1 true;
    EvConfirm "alice" gidA gridA;
    EvConfirm "bob" gidA gridB ].

Definition w_play : World := run init_world scenario_play.

(** A grid whose row 0 is longer than the declared 5 columns, with a bomb
    at column 5; [confirmBombPlacement] accepts any shape. *)
Definition gridB_long : Grid :=
  [[0;0;0;0;0;1]; [0;0;0;1;0]; [0;0;1;0;0]; [0;0;0;0;0]; [0;0;0;0;0]].

Definition w_long : World :=
  run init_world
    [ EvCreate dataA "0.abcdefghijklm" "0.nopqrstuvwxy" 1000;
      EvJoin gidA "bob" 1 true;
      EvConfirm "alice" gidA gridA;
      EvConfirm "bob" gidA gridB_long ].

Definition dummy_game : Game :=
  mkGame "" "" None "" 0 0 "" [] Waiting 0 (mkState Placement 0 0 None [] []) false [].

Definition get_or_dummy (o : option Game) : Game :=
  match o with Some gm => gm | None => dummy_game end.

Definition game_play : Game := get_or_dummy (game_of w_play gidA).

(** The declared grid size of a game, [parseInt(game.size.charAt(0))]. *)
Definition grid_size_of (gm : Game) : nat :=
  match parse_size (size gm) with Some n => n | None => 0%nat end.

Definition phase_of (w : World) (g : string) : option Phase :=
  option_map (fun gm => phase (state gm)) (game_of w g).

(** * Proofs *)

(** ** Map lemmas *)

Section MapLemmas.
Context {V : Type}.

Lemma map_get_set_eq (k : string) (v : V) (m : list (string * V)) :
  map_get k (map_set k v m) = Some v.
Proof.
  induction m as [|[k' v'] m IH]; simpl.
  - rewrite String.eqb_refl. reflexivity.
  - destruct (String.eqb k k') eqn:E; simpl.
    + rewrite E. reflexivity.
    + rewrite E. exact IH.
Qed.

Lemma map_get_set_neq (k k' : string) (v : V) (m : list (string * V)) :
  k <> k' -> map_get k' (map_set k v m) = map_get k' m.
Proof.
  intros Hne. induction m as [|[k0 v0] m IH]; simpl.
  - destruct (String.eqb k' k) eqn:E; [|reflexivity].
    apply String.eqb_eq in E. congruence.
  - destruct (String.eqb k k0) eqn:E; simpl.
    + apply String.eqb_eq in E. subst k0.
      destruct (String.eqb k' k) eqn:E'; [|reflexivity].
      apply String.eqb_eq in E'. congruence.
    + destruct (String.eqb k' k0); [reflexivity | exact IH].
Qed.

Lemma map_get_delete_eq (k : string) (m : list (string * V)) :
  map_get k (map_delete k m) = None.
Proof.
  induction m as [|[k' v'] m IH]; simpl; [reflexivity|].
  destruct (String.eqb k k') eqn:E; simpl; [exact IH|].
  rewrite E. exact IH.
Qed.

Lemma map_get_delete_neq (k k' : string) (m : list (string * V)) :
  k <> k' -> map_get k' (map_delete k m) = map_get k' m.
Proof.
  intros Hne. induction m as [|[k0 v0] m IH]; simpl; [reflexivity|].
  destruct (String.eqb k k0) eqn:E; simpl.
  - apply String.eqb_eq in E. subst k0.
    destruct (String.eqb k' k) eqn:E'.
    + apply String.eqb_eq in E'. congruence.
    + exact IH.
  - destruct (String.eqb k' k0); [reflexivity | exact IH].
Qed.

Lemma map_delete_idem (k : string) (m : list (string * V)) :
  map_delete k (map_delete k m) = map_delete k m.
Proof.
  unfold map_delete. induction m as [|[k' v'] m IH]; simpl; [reflexivity|].
  destruct (String.eqb k k') eqn:E; simpl; [exact IH|].
  rewrite E. simpl. rewrite IH. reflexivity.
Qed.

Lemma map_set_keys (k : string) (v : V) (m : list (string * V)) :
  map fst (map_set k v m) =
  if existsb (fun kv => String.eqb k (fst kv)) m then map fst m else map fst m ++ [k].
Proof.
  induction m as [|[k' v'] m IH]; simpl; [reflexivity|].
  destruct (String.eqb k k') eqn:E; simpl; [reflexivity|].
  rewrite IH. destruct (existsb _ _); reflexivity.
Qed.

End MapLemmas.

(** ** The timer invariant

    Every live interval is the one the [timers] Map holds for its game,
    handles of live intervals are distinct and below the next fresh one. *)

Definition TimerInv (w : World) : Prop :=
  (forall iv, In iv (live w) -> map_get (iv_game iv) (timers w) = Some (iv_id iv)) /\
  NoDup (map iv_id (live w)) /\
  (forall iv, In iv (live w) -> (iv_id iv < next_iv w)%nat).

Definition same_timers (w w' : World) : Prop :=
  timers w = timers w' /\ live w = live w' /\ next_iv w = next_iv w'.

Lemma TimerInv_same (w w' : World) : same_timers w w' -> TimerInv w -> TimerInv w'.
Proof.
  intros (Ht & Hl & Hn) (H1 & H2 & H3).
  unfold TimerInv. rewrite <- Ht, <- Hl, <- Hn. auto.
Qed.

Lemma TimerInv_put_game g gm w : TimerInv w -> TimerInv (put_game g gm w).
Proof. apply TimerInv_same. repeat split. Qed.

Lemma TimerInv_with_pending p w : TimerInv w -> TimerInv (with_pending p w).
Proof. apply TimerInv_same. repeat split. Qed.

Lemma TimerInv_with_games gs w : TimerInv w -> TimerInv (with_games gs w).
Proof. apply TimerInv_same. repeat split. Qed.

Lemma TimerInv_update_game g f w : TimerInv w -> TimerInv (update_game g f w).
Proof.
  unfold update_game. destruct (game_of w g); [apply TimerInv_put_game | auto].
Qed.

Lemma NoDup_ids_filter (keep : Interval -> bool) (ivs : list Interval) :
  NoDup (map iv_id ivs) -> NoDup (map iv_id (filter keep ivs)).
Proof.
  induction ivs as [|iv ivs IH]; cbn [filter map]; intros Hnd; [constructor|].
  inversion Hnd as [|? ? Hnot Hrest]; subst.
  destruct (keep iv); cbn [map]; [|apply IH; exact Hrest].
  constructor; [|apply IH; exact Hrest].
  intros Hin. apply Hnot. apply in_map_iff in Hin as (iv' & Hid & Hin').
  apply filter_In in Hin' as (Hin' & _). rewrite <- Hid. apply in_map. exact Hin'.
Qed.

Lemma clearTimer_no_game g w :
  TimerInv w -> forall iv, In iv (live (clearTimer g w)) -> iv_game iv <> g.
Proof.
  intros (H1 & _ & _) iv Hin Heq. unfold clearTimer in Hin.
  destruct (map_get g (timers w)) as [tid|] eqn:Eg.
  - simpl in Hin. unfold clearInterval in Hin.
    apply filter_In in Hin as (Hin & Hne).
    specialize (H1 iv Hin). rewrite Heq, Eg in H1. injection H1 as H1.
    subst tid. rewrite Nat.eqb_refl in Hne. discriminate.
  - specialize (H1 iv Hin). rewrite Heq, Eg in H1. discriminate.
Qed.

Lemma TimerInv_clearTimer g w : TimerInv w -> TimerInv (clearTimer g w).
Proof.
  intros Hinv. pose proof (clearTimer_no_game g w Hinv) as Hno.
  destruct Hinv as (H1 & H2 & H3).
  unfold clearTimer in *.
  destruct (map_get g (timers w)) as [tid|] eqn:Eg; [|repeat split; auto].
  unfold TimerInv. cbn [timers live next_iv] in *. unfold clearInterval in *.
  repeat split.
  - intros iv Hin. pose proof (Hno iv Hin) as Hg.
    apply filter_In in Hin as (Hin & _).
    rewrite map_get_delete_neq by congruence. auto.
  - apply NoDup_ids_filter. exact H2.
  - intros iv Hin. apply filter_In in Hin as (Hin & _). auto.
Qed.

Lemma TimerInv_startTimer g s cb w : TimerInv w -> TimerInv (startTimer g s cb w).
Proof.
  intros Hinv. pose proof (clearTimer_no_game g w Hinv) as Hno.
  pose proof (TimerInv_clearTimer g w Hinv) as (H1 & H2 & H3).
  unfold startTimer, TimerInv. set (w1 := clearTimer g w) in *.
  cbn [timers live next_iv]. repeat split.
  - intros iv Hin. apply in_app_or in Hin as [Hin | [<- | []]].
    + rewrite map_get_set_neq by (apply not_eq_sym; auto). auto.
    + simpl. apply map_get_set_eq.
  - rewrite map_app. simpl. apply NoDup_app; auto.
    + repeat constructor. intros [].
    + intros n Hn Hn'. simpl in Hn'. destruct Hn' as [<- | []].
      apply in_map_iff in Hn as (iv & Heq & Hin). specialize (H3 iv Hin). lia.
  - intros iv Hin. apply in_app_or in Hin as [Hin | [<- | []]].
    + specialize (H3 iv Hin). lia.
    + simpl. lia.
Qed.

Create HintDb timerinv.
#[local] Hint Resolve TimerInv_startTimer TimerInv_clearTimer TimerInv_put_game
  TimerInv_with_pending TimerInv_with_games TimerInv_update_game : timerinv.

Ltac timer_inv :=
  repeat (cbv beta zeta;
    match goal with
    | |- TimerInv (snd ((match ?x with _ => _ end) _)) => destruct x
    | |- TimerInv (snd ((if ?b then _ else _) _)) => destruct b
    | |- TimerInv (match ?x with _ => _ end) => destruct x
    | |- TimerInv (if ?b then _ else _) => destruct b
    | |- TimerInv (snd (match ?x with _ => _ end)) => destruct x
    | |- TimerInv (snd (if ?b then _ else _)) => destruct b
    | |- TimerInv (snd (_, _)) => cbn [snd]
    | |- TimerInv _ => progress eauto with timerinv
    end); eauto with timerinv.

Lemma TimerInv_startGameplayPhase g w : TimerInv w -> TimerInv (startGameplayPhase g w).
Proof. intros H. unfold startGameplayPhase. timer_inv. Qed.
#[local] Hint Resolve TimerInv_startGameplayPhase : timerinv.

Lemma TimerInv_autoPlaceBombs g d w : TimerInv w -> TimerInv (autoPlaceBombs g d w).
Proof. intros H. unfold autoPlaceBombs. timer_inv. Qed.
#[local] Hint Resolve TimerInv_autoPlaceBombs : timerinv.

Lemma TimerInv_confirmBombPlacement g p grid w :
  TimerInv w -> TimerInv (confirmBombPlacement g p grid w).
Proof. intros H. unfold confirmBombPlacement. timer_inv. Qed.
#[local] Hint Resolve TimerInv_confirmBombPlacement : timerinv.

Lemma TimerInv_endGame g w : TimerInv w -> TimerInv (endGame g w).
Proof. intros H. unfold endGame. timer_inv. Qed.
#[local] Hint Resolve TimerInv_endGame : timerinv.

Lemma TimerInv_exitGame g p w : TimerInv w -> TimerInv (exitGame g p w).
Proof. intros H. unfold exitGame. timer_inv. Qed.
#[local] Hint Resolve TimerInv_exitGame : timerinv.

Lemma TimerInv_startGame g w : TimerInv w -> TimerInv (startGame g w).
Proof. intros H. unfold startGame. timer_inv. Qed.
#[local] Hint Resolve TimerInv_startGame : timerinv.

Lemma TimerInv_disconnect_loop p ks w : TimerInv w -> TimerInv (disconnect_loop p ks w).
Proof.
  revert w. induction ks as [|k ks IH]; intros w H; simpl; [exact H|].
  apply IH. timer_inv.
Qed.

Lemma TimerInv_cleanup_loop now ks w : TimerInv w -> TimerInv (cleanup_loop now ks w).
Proof.
  revert w. induction ks as [|k ks IH]; intros w H; simpl; [exact H|].
  apply IH. timer_inv.
Qed.

Lemma TimerInv_createGame d r1 r2 now w :
  TimerInv w -> TimerInv (snd (createGame d r1 r2 now w)).
Proof.
  intros H. unfold createGame, bind, modify, ret, throw. timer_inv.
Qed.

Lemma TimerInv_joinGame g p w : TimerInv w -> TimerInv (snd (joinGame g p w)).
Proof.
  intros H. unfold joinGame, bind, lookup_game, modify, ret, throw. timer_inv.
Qed.

Lemma TimerInv_revealField g p x y w : TimerInv w -> TimerInv (snd (revealField g p x y w)).
Proof.
  intros H. unfold revealField, bind, lookup_game, modify, ret, throw. timer_inv.
Qed.

Lemma TimerInv_set_left tid left w :
  TimerInv w ->
  TimerInv (mkWorld (games w) (timers w)
              (map (fun iv' => if Nat.eqb (iv_id iv') tid
                               then mkIv (iv_id iv') (iv_game iv') left (iv_cb iv')
                               else iv') (live w)) (next_iv w) (pending w)).
Proof.
  intros (H1 & H2 & H3). unfold TimerInv. cbn [timers live next_iv]. repeat split.
  - intros iv Hin. apply in_map_iff in Hin as (iv0 & <- & Hin).
    destruct (Nat.eqb (iv_id iv0) tid); simpl; auto.
  - rewrite map_map.
    replace (map (fun x => iv_id (if Nat.eqb (iv_id x) tid
                                 then mkIv (iv_id x) (iv_game x) left (iv_cb x) else x)) (live w))
      with (map iv_id (live w)); [exact H2|].
    apply map_ext. intros a. destruct (Nat.eqb (iv_id a) tid); reflexivity.
  - intros iv Hin. apply in_map_iff in Hin as (iv0 & <- & Hin).
    destruct (Nat.eqb (iv_id iv0) tid); simpl; auto.
Qed.

Lemma TimerInv_tick_core tid w : TimerInv w -> TimerInv (fst (tick_core tid w)).
Proof.
  intros H. unfold tick_core.
  destruct (find _ (live w)) as [iv|]; [|exact H]. cbv zeta.
  destruct (game_of w (iv_game iv)); [|apply TimerInv_clearTimer; exact H].
  pose proof (TimerInv_set_left tid (iv_left iv - 1) w H).
  destruct (iv_left iv - 1 <=? 0); cbn [fst]; eauto with timerinv.
Qed.

Lemma TimerInv_run_cb g cb d w : TimerInv w -> TimerInv (run_cb g cb d w).
Proof.
  intros H. destruct cb; simpl; [eauto with timerinv|].
  unfold handleRoundTimeout. destruct (game_of w g); exact H.
Qed.

Lemma TimerInv_tick tid d w : TimerInv w -> TimerInv (tick tid d w).
Proof.
  intros H. pose proof (TimerInv_tick_core tid w H) as Hc. unfold tick.
  destruct (tick_core tid w) as [w1 [[g cb]|]]; simpl in *;
    [apply TimerInv_run_cb|]; exact Hc.
Qed.

#[local] Hint Resolve TimerInv_createGame TimerInv_joinGame TimerInv_revealField
  TimerInv_tick TimerInv_disconnect_loop TimerInv_cleanup_loop : timerinv.

Lemma TimerInv_step w e : TimerInv w -> TimerInv (step w e).
Proof.
  intros H. destruct e; simpl.
  - apply TimerInv_createGame. exact H.
  - unfold on_join. pose proof (TimerInv_joinGame gid pid w H).
    destruct (joinGame gid pid w) as [[] w']; simpl in *; timer_inv.
  - unfold on_confirm. timer_inv.
  - unfold on_reveal. pose proof (TimerInv_revealField gid pid x y w H).
    destruct (revealField gid pid x y w) as [[|[]] w']; simpl in *; timer_inv.
  - timer_inv.
  - unfold handlePlayerDisconnect. timer_inv.
  - timer_inv.
  - unfold fire_delete. timer_inv.
  - unfold cleanupOldGames. timer_inv.
Qed.

Lemma TimerInv_run es w : TimerInv w -> TimerInv (run w es).
Proof.
  revert w. induction es as [|e es IH]; intros w H; simpl; [exact H|].
  apply IH. apply TimerInv_step. exact H.
Qed.

Lemma TimerInv_init : TimerInv init_world.
Proof. unfold TimerInv. simpl. repeat split; try contradiction. constructor. Qed.

Lemma reachable_TimerInv w : reachable w -> TimerInv w.
Proof. intros (es & <-). apply TimerInv_run. exact TimerInv_init. Qed.

(** Distinct handles with one Map entry per game give distinct games. *)
Lemma TimerInv_NoDup_games w : TimerInv w -> NoDup (map iv_game (live w)).
Proof.
  intros (H1 & H2 & _). revert H1 H2. generalize (live w) as l.
  induction l as [|a l IH]; intros H1 H2; simpl; [constructor|].
  inversion H2; subst. constructor.
  - intros Hin. apply in_map_iff in Hin as (b & Hb & Hin).
    pose proof (H1 a (or_introl eq_refl)) as Ha.
    pose proof (H1 b (or_intror Hin)) as Hb'.
    rewrite Hb, Ha in Hb'. injection Hb' as Hb'.
    apply H3. rewrite Hb'. apply in_map. exact Hin.
  - apply IH; auto. intros iv Hin. apply H1. right. exact Hin.
Qed.

Lemma clearTimer_games g w : games (clearTimer g w) = games w.
Proof. unfold clearTimer. destruct (map_get g (timers w)); reflexivity. Qed.

Lemma clearTimer_next g w : next_iv (clearTimer g w) = next_iv w.
Proof. unfold clearTimer. destruct (map_get g (timers w)); reflexivity. Qed.

Lemma clearTimer_pending g w : pending (clearTimer g w) = pending w.
Proof. unfold clearTimer. destruct (map_get g (timers w)); reflexivity. Qed.

Lemma find_id_NoDup (l : list Interval) (iv : Interval) :
  NoDup (map iv_id l) -> In iv l ->
  find (fun iv' => Nat.eqb (iv_id iv') (iv_id iv)) l = Some iv.
Proof.
  induction l as [|a l IH]; simpl; intros Hnd Hin; [contradiction|].
  inversion Hnd; subst.
  destruct Hin as [-> | Hin].
  - rewrite Nat.eqb_refl. reflexivity.
  - destruct (Nat.eqb (iv_id a) (iv_id iv)) eqn:E.
    + apply Nat.eqb_eq in E. exfalso. apply H1. rewrite E. apply in_map. exact Hin.
    + apply IH; auto.
Qed.

Lemma find_id_none (l : list Interval) (tid : nat) :
  ~ In tid (map iv_id l) -> find (fun iv' => Nat.eqb (iv_id iv') tid) l = None.
Proof.
  induction l as [|a l IH]; simpl; intros Hn; [reflexivity|].
  destruct (Nat.eqb (iv_id a) tid) eqn:E.
  - apply Nat.eqb_eq in E. exfalso. apply Hn. left. exact E.
  - apply IH. intros H. apply Hn. right. exact H.
Qed.

Lemma filter_none {A} (f : A -> bool) (l : list A) :
  (forall x, In x l -> f x = false) -> filter f l = [].
Proof.
  induction l as [|a l IH]; simpl; intros H; [reflexivity|].
  rewrite (H a (or_introl eq_refl)). apply IH. intros x Hx. apply H. right. exact Hx.
Qed.

Lemma startTimer_only g s cb w :
  TimerInv w ->
  filter (fun iv => String.eqb (iv_game iv) g) (live (startTimer g s cb w)) =
  [mkIv (next_iv w) g s cb].
Proof.
  intros H. pose proof (clearTimer_no_game g w H) as Hno.
  unfold startTimer. cbn [live]. rewrite filter_app, clearTimer_next.
  replace (filter (fun iv => String.eqb (iv_game iv) g) (live (clearTimer g w))) with (@nil Interval).
  - simpl. rewrite String.eqb_refl. reflexivity.
  - symmetry. apply filter_none.
    intros iv Hin. specialize (Hno iv Hin).
    destruct (String.eqb (iv_game iv) g) eqn:E; [|reflexivity].
    apply String.eqb_eq in E. contradiction.
Qed.

Lemma tick_core_present w iv game :
  TimerInv w -> In iv (live w) -> game_of w (iv_game iv) = Some game ->
  let left := iv_left iv - 1 in
  let r := tick_core (iv_id iv) w in
  game_of (fst r) (iv_game iv) = Some (set_state (set_timeLeft left (state game)) game) /\
  (left <= 0 -> snd r = Some (iv_game iv, iv_cb iv) /\
                forall iv', In iv' (live (fst r)) -> iv_game iv' <> iv_game iv) /\
  (0 < left -> snd r = None /\ In (mkIv (iv_id iv) (iv_game iv) left (iv_cb iv)) (live (fst r))).
Proof.
  intros Hinv Hin Hg left r.
  assert (Hf : find (fun iv' => Nat.eqb (iv_id iv') (iv_id iv)) (live w) = Some iv)
    by (apply find_id_NoDup; [apply Hinv | exact Hin]).
  unfold r, tick_core. rewrite Hf. rewrite Hg. fold left.
  set (live' := map _ (live w)).
  set (w1 := put_game (iv_game iv) _ (mkWorld (games w) (timers w) live' (next_iv w) (pending w))).
  assert (Hinv1 : TimerInv w1)
    by (apply TimerInv_put_game; apply TimerInv_set_left; exact Hinv).
  assert (Hgame : game_of w1 (iv_game iv) =
                  Some (set_state (set_timeLeft left (state game)) game))
    by (unfold w1, game_of, put_game, with_games; cbn [games]; apply map_get_set_eq).
  destruct (left <=? 0) eqn:E; cbn [fst snd].
  - apply Z.leb_le in E. split; [|split].
    + unfold game_of. rewrite clearTimer_games. exact Hgame.
    + intros _. split; [reflexivity|]. apply clearTimer_no_game. exact Hinv1.
    + intros H. lia.
  - apply Z.leb_gt in E. split; [exact Hgame|split].
    + intros H. lia.
    + intros _. split; [reflexivity|]. unfold w1, put_game, with_games. cbn [live].
      unfold live'. apply in_map_iff. exists iv. rewrite Nat.eqb_refl. split; auto.
Qed.

Lemma tick_core_absent w iv :
  TimerInv w -> In iv (live w) -> game_of w (iv_game iv) = None ->
  snd (tick_core (iv_id iv) w) = None /\
  forall iv', In iv' (live (fst (tick_core (iv_id iv) w))) -> iv_game iv' <> iv_game iv.
Proof.
  intros Hinv Hin Hg.
  assert (Hf : find (fun iv' => Nat.eqb (iv_id iv') (iv_id iv)) (live w) = Some iv)
    by (apply find_id_NoDup; [apply Hinv | exact Hin]).
  unfold tick_core. rewrite Hf, Hg. cbn [fst snd]. split; [reflexivity|].
  apply clearTimer_no_game. exact Hinv.
Qed.

(** ** C5: timers *)

(** C5. In every reachable state at most one interval is live per game id;
    arming a timer leaves exactly one live interval for that id, the new
    one; a tick of a live interval whose game exists writes the decremented
    count into the game's [timeLeft], and runs [onComplete] exactly when the
    count reaches zero, at which point the interval is no longer live (so it
    cannot run it again); a tick of a live interval whose game is gone only
    clears it, without running [onComplete]; an interval that is not live
    never does anything. *)
Theorem C5_timer_discipline (w : World) :
  reachable w ->
  NoDup (map iv_game (live w)) /\
  (forall g s cb,
     filter (fun iv => String.eqb (iv_game iv) g) (live (startTimer g s cb w)) =
     [mkIv (next_iv w) g s cb]) /\
  (forall iv game, In iv (live w) -> game_of w (iv_game iv) = Some game ->
     let left := iv_left iv - 1 in
     let r := tick_core (iv_id iv) w in
     game_of (fst r) (iv_game iv) = Some (set_state (set_timeLeft left (state game)) game) /\
     (left <= 0 -> snd r = Some (iv_game iv, iv_cb iv) /\
                   forall iv', In iv' (live (fst r)) -> iv_game iv' <> iv_game iv) /\
     (0 < left -> snd r = None /\
                  In (mkIv (iv_id iv) (iv_game iv) left (iv_cb iv)) (live (fst r)))) /\
  (forall iv, In iv (live w) -> game_of w (iv_game iv) = None ->
     snd (tick_core (iv_id iv) w) = None /\
     forall iv', In iv' (live (fst (tick_core (iv_id iv) w))) -> iv_game iv' <> iv_game iv) /\
  (forall tid, ~ In tid (map iv_id (live w)) -> tick_core tid w = (w, None)).
Proof.
  intros Hr. pose proof (reachable_TimerInv w Hr) as Hinv.
  split; [apply TimerInv_NoDup_games; exact Hinv|].
  split; [intros; apply startTimer_only; exact Hinv|].
  split; [intros iv game Hin Hg; apply tick_core_present; assumption|].
  split; [intros iv Hin Hg; apply tick_core_absent; assumption|].
  intros tid Hn. unfold tick_core. rewrite find_id_none by exact Hn. reflexivity.
Qed.

Lemma reachable_w_play : reachable w_play.
Proof. exists scenario_play. unfold w_play. reflexivity. Qed.

Lemma C5_timer_discipline_witness :
  reachable w_play /\ NoDup (map iv_game (live w_play)).
Proof.
  split; [exact reachable_w_play|].
  exact (proj1 (C5_timer_discipline w_play reachable_w_play)).
Defined.

(** ** Revealing a cell *)

(** Whether [revealedFields[x][y]] of game [g] is truthy. *)
Definition revealed_at (w : World) (g : string) (x y : nat) : bool :=
  match game_of w g with
  | Some gm =>
      match nth_error (revealedFields (state gm)) x with
      | Some row => truthy_cell (nth_error row y)
      | None => false
      end
  | None => false
  end.

Lemma game_of_put_game g gm w : game_of (put_game g gm w) g = Some gm.
Proof. apply map_get_set_eq. Qed.

Lemma game_of_put_game_neq g g' gm w : g <> g' -> game_of (put_game g gm w) g' = game_of w g'.
Proof. intros H. apply map_get_set_neq. exact H. Qed.

Lemma game_of_clearTimer g g' w : game_of (clearTimer g w) g' = game_of w g'.
Proof. unfold game_of. rewrite clearTimer_games. reflexivity. Qed.

Lemma game_of_startTimer g g' s cb w : game_of (startTimer g s cb w) g' = game_of w g'.
Proof. unfold game_of, startTimer. cbn [games]. apply game_of_clearTimer. Qed.

Lemma next_iv_put_game g gm w : next_iv (put_game g gm w) = next_iv w.
Proof. reflexivity. Qed.

Lemma nth_error_list_update {A} (i : nat) (f : A -> A) (l : list A) (a : A) :
  nth_error l i = Some a -> nth_error (list_update i f l) i = Some (f a).
Proof.
  revert i. induction l as [|b l IH]; intros [|i] H; simpl in *; try discriminate.
  - injection H as ->. reflexivity.
  - apply IH. exact H.
Qed.

Lemma nth_error_js_set {A} (i : nat) (v : A) (l : list (option A)) :
  nth_error (js_set i v l) i = Some (Some v).
Proof.
  revert i. induction l as [|b l IH]; intros [|i]; simpl; auto.
  induction i as [|i IHi]; simpl; auto.
Qed.

Lemma revealField_ok w g p x y game row :
  game_of w g = Some game -> phase (state game) = Gameplay ->
  currentPlayer (state game) = Some p ->
  nth_error (revealedFields (state game)) x = Some row ->
  truthy_cell (nth_error row y) = false ->
  let opp := opponent_of game p in
  let w1 := put_game g (mark_revealed x y game) w in
  revealField g p x y w =
    if has_bomb (map_get (key_of opp) (bombPlacements game)) x y
    then (inr (RevEnded opp Bomb), w1)
    else (inr (RevContinue Coin),
          startTimer g 5 OnRound
            (clearTimer g (put_game g (switch_turn opp (mark_revealed x y game)) w1))).
Proof.
  intros Hg Hph Hcur Hrow Hcell opp w1.
  unfold revealField, bind, lookup_game, modify, ret, throw.
  rewrite Hg, Hph, Hcur. cbn [Phase_eqb negb opt_is]. rewrite String.eqb_refl.
  cbn [negb]. rewrite Hrow, Hcell. fold opp.
  assert (E : update_game g (mark_revealed x y) w = w1)
    by (unfold update_game; rewrite Hg; reflexivity).
  rewrite E. destruct (has_bomb _ x y); [reflexivity|].
  unfold update_game. unfold w1 at 1. rewrite game_of_put_game. reflexivity.
Qed.

Lemma revealed_after_mark w g x y game row :
  nth_error (revealedFields (state game)) x = Some row ->
  revealed_at (put_game g (mark_revealed x y game) w) g x y = true.
Proof.
  intros Hrow. unfold revealed_at. rewrite game_of_put_game.
  unfold mark_revealed, set_state, set_revealed. cbn [state revealedFields].
  rewrite (nth_error_list_update x (js_set y true) _ row Hrow).
  rewrite nth_error_js_set. reflexivity.
Qed.

Lemma endGame_present w g game :
  game_of w g = Some game ->
  endGame g w =
  let game' := set_state (set_phase Ended (state game)) (set_status Completed game) in
  let w1 := clearTimer g (put_game g game' w) in
  with_pending (pending w1 ++ [g]) w1.
Proof. intros H. unfold endGame. rewrite H. reflexivity. Qed.

Lemma endGame_effect w g game :
  TimerInv w -> game_of w g = Some game ->
  game_of (endGame g w) g =
    Some (set_state (set_phase Ended (state game)) (set_status Completed game)) /\
  (forall iv, In iv (live (endGame g w)) -> iv_game iv <> g) /\
  In g (pending (endGame g w)).
Proof.
  intros Hinv Hg. rewrite (endGame_present w g game Hg). cbv zeta. split; [|split].
  - unfold game_of, with_pending. cbn [games]. rewrite clearTimer_games.
    apply map_get_set_eq.
  - apply clearTimer_no_game. apply TimerInv_put_game. exact Hinv.
  - cbn [pending]. apply in_or_app. right. left. reflexivity.
Qed.

(** ** C1: the outcome of a reveal *)

(** C1 (amended).  Let the current player [p] of a match [g] in Gameplay
    reveal an unrevealed cell [(x, y)] of the revealed grid.  The content
    is bomb exactly when the opponent's stored grid holds [1] at [(x, y)],
    and the cell becomes revealed.  On a bomb, [revealField] reports
    [{ gameEnded: true, winner: opponent, content: bomb }] and itself
    leaves the phase at Gameplay and the turn unchanged; the reveal handler, once the payout has
    gone through, calls [endGame], which sets phase Ended and status
    Completed and leaves no live timer for the match.  On a coin the result
    is non-terminal, the turn passes to the opponent, the round goes up by
    one, and the only live timer of the match is a fresh 5-second per-turn
    timer. *)
Theorem C1_reveal_outcome (w : World) (g p : string) (x y : nat) (game : Game)
    (row : list (option bool)) :
  reachable w -> game_of w g = Some game -> phase (state game) = Gameplay ->
  currentPlayer (state game) = Some p ->
  nth_error (revealedFields (state game)) x = Some row ->
  truthy_cell (nth_error row y) = false ->
  let opp := opponent_of game p in
  let mined := has_bomb (map_get (key_of opp) (bombPlacements game)) x y in
  let r := revealField g p x y w in
  revealed_at (snd r) g x y = true /\
  (mined = true ->
     fst r = inr (RevEnded opp Bomb) /\
     (exists gm, game_of (snd r) g = Some gm /\ phase (state gm) = Gameplay /\
                 currentPlayer (state gm) = Some p) /\
     (exists gm, game_of (on_reveal p g x y true w) g = Some gm /\
                 phase (state gm) = Ended /\ status gm = Completed) /\
     (forall iv, In iv (live (on_reveal p g x y true w)) -> iv_game iv <> g)) /\
  (mined = false ->
     fst r = inr (RevContinue Coin) /\
     (exists gm, game_of (snd r) g = Some gm /\ currentPlayer (state gm) = opp /\
                 round (state gm) = round (state game) + 1 /\
                 phase (state gm) = Gameplay) /\
     filter (fun iv => String.eqb (iv_game iv) g) (live (snd r)) =
       [mkIv (next_iv w) g 5 OnRound]).
Proof.
  intros Hr Hg Hph Hcur Hrow Hcell opp mined r.
  pose proof (reachable_TimerInv w Hr) as Hinv.
  pose proof (revealField_ok w g p x y game row Hg Hph Hcur Hrow Hcell) as Hrev.
  cbv zeta in Hrev. fold opp in Hrev. fold mined in Hrev.
  set (w1 := put_game g (mark_revealed x y game) w) in *.
  assert (Hw1 : revealed_at w1 g x y = true) by (apply revealed_after_mark with row; exact Hrow).
  assert (Hg1 : game_of w1 g = Some (mark_revealed x y game)) by apply game_of_put_game.
  unfold r. rewrite Hrev.
  destruct mined eqn:Em; cbn [fst snd].
  - split; [exact Hw1|]. split; [|intros H; discriminate].
    intros _. split; [reflexivity|]. split.
    + exists (mark_revealed x y game). split; [exact Hg1|]. split; [exact Hph|]. exact Hcur.
    + unfold on_reveal. rewrite Hrev.
      assert (Hinv1 : TimerInv w1) by (apply TimerInv_put_game; exact Hinv).
      rewrite Hg1. cbn [andb negb].
      replace (truthy_str opp && false) with false by (destruct (truthy_str opp); reflexivity).
      pose proof (endGame_effect w1 g _ Hinv1 Hg1) as (He1 & He2 & _).
      split; [|exact He2].
      eexists. split; [exact He1|]. split; reflexivity.
  - split.
    + unfold revealed_at. rewrite game_of_startTimer, game_of_clearTimer, game_of_put_game.
      unfold revealed_at in Hw1. rewrite Hg1 in Hw1. exact Hw1.
    + split; [intros H; discriminate|]. intros _. split; [reflexivity|]. split.
      * eexists. rewrite game_of_startTimer, game_of_clearTimer, game_of_put_game.
        split; [reflexivity|]. unfold switch_turn, mark_revealed. cbn. split; [reflexivity|].
        split; [reflexivity|]. exact Hph.
      * rewrite startTimer_only.
        -- rewrite clearTimer_next. reflexivity.
        -- apply TimerInv_clearTimer, TimerInv_put_game, TimerInv_put_game. exact Hinv.
Qed.

Lemma C1_reveal_outcome_witness :
  game_of w_play gidA = Some game_play /\ phase (state game_play) = Gameplay /\
  currentPlayer (state game_play) = Some "alice"%string /\
  revealed_at (snd (revealField gidA "alice" 0 0 w_play)) gidA 0 0 = true.
Proof.
  split; [vm_compute; reflexivity|]. split; [vm_compute; reflexivity|].
  split; [vm_compute; reflexivity|].
  refine (proj1 (C1_reveal_outcome w_play gidA "alice" 0 0 game_play
                   (repeat (Some false) 5) reachable_w_play _ _ _ _ _));
    vm_compute; reflexivity.
Defined.

(** C1 as stated fails: [revealField] on a bomb does not end the match.  In
    the scenario, alice reveals bob's bomb at (0,4): the result is terminal
    but the phase stays Gameplay and the turn stays with alice, who can at
    once reveal bob's bomb at (1,3) and get a second terminal result; and
    when the payout call fails, the handler never reaches [endGame]. *)
Lemma C1_reveal_outcome_counterexample :
  fst (revealField gidA "alice" 0 4 w_play) = inr (RevEnded (Some "bob"%string) Bomb) /\
  phase_of (snd (revealField gidA "alice" 0 4 w_play)) gidA = Some Gameplay /\
  fst (revealField gidA "alice" 1 3 (snd (revealField gidA "alice" 0 4 w_play))) =
    inr (RevEnded (Some "bob"%string) Bomb) /\
  phase_of (on_reveal "alice" gidA 0 4 false w_play) gidA = Some Gameplay.
Proof. repeat split; vm_compute; reflexivity. Qed.

(** ** C10: revealing past the last column *)

(** C10 (amended).  [revealField] has no bounds check on [y]: when the
    current player of a match in Gameplay reveals [(x, y)] with [x] a row of
    the revealed grid and [y] at or past the declared grid size, and that
    position was not revealed before, the call succeeds; the position is
    marked revealed; the content is bomb exactly when the opponent's stored
    grid holds [1] there (possible, since a confirmed grid's shape is not
    checked), so it is coin whenever the opponent's row [x] has at most
    gridSize entries (as an auto-placed grid has) or there is no such grid;
    on a coin the turn passes to the opponent. *)
Theorem C10_offgrid_reveal (w : World) (g p : string) (x y : nat) (game : Game)
    (row : list (option bool)) :
  game_of w g = Some game -> phase (state game) = Gameplay ->
  currentPlayer (state game) = Some p ->
  nth_error (revealedFields (state game)) x = Some row ->
  (grid_size_of game <= y)%nat ->
  truthy_cell (nth_error row y) = false ->
  let opp := opponent_of game p in
  let mined := has_bomb (map_get (key_of opp) (bombPlacements game)) x y in
  let r := revealField g p x y w in
  fst r = inr (if mined then RevEnded opp Bomb else RevContinue Coin) /\
  revealed_at (snd r) g x y = true /\
  (mined = false -> exists gm, game_of (snd r) g = Some gm /\ currentPlayer (state gm) = opp) /\
  ((forall grid orow, map_get (key_of opp) (bombPlacements game) = Some grid ->
      nth_error grid x = Some orow -> (List.length orow <= grid_size_of game)%nat) ->
   mined = false).
Proof.
  intros Hg Hph Hcur Hrow Hy Hcell opp mined r.
  pose proof (revealField_ok w g p x y game row Hg Hph Hcur Hrow Hcell) as Hrev.
  cbv zeta in Hrev. fold opp mined in Hrev.
  assert (Hw1 : revealed_at (put_game g (mark_revealed x y game) w) g x y = true)
    by (apply revealed_after_mark with row; exact Hrow).
  assert (Hshape : (forall grid orow, map_get (key_of opp) (bombPlacements game) = Some grid ->
      nth_error grid x = Some orow -> (List.length orow <= grid_size_of game)%nat) ->
      mined = false).
  { intros Hsz. unfold mined, has_bomb.
    destruct (map_get (key_of opp) (bombPlacements game)) as [grid|]; [|reflexivity].
    destruct (nth_error grid x) as [orow|] eqn:Ex; [|reflexivity].
    specialize (Hsz grid orow eq_refl Ex).
    assert (Hn : nth_error orow y = None) by (apply nth_error_None; lia).
    rewrite Hn. reflexivity. }
  unfold r. rewrite Hrev. destruct mined; cbn [fst snd].
  - split; [reflexivity|]. split; [exact Hw1|]. split; [intros H; discriminate|exact Hshape].
  - split; [reflexivity|]. split.
    + unfold revealed_at. rewrite game_of_startTimer, game_of_clearTimer, game_of_put_game.
      unfold revealed_at in Hw1. rewrite game_of_put_game in Hw1. exact Hw1.
    + split; [|exact Hshape]. intros _. eexists.
      rewrite game_of_startTimer, game_of_clearTimer, game_of_put_game.
      split; reflexivity.
Qed.

Lemma C10_offgrid_reveal_witness :
  game_of w_play gidA = Some game_play /\ (grid_size_of game_play <= 7)%nat /\
  fst (revealField gidA "alice" 0 7 w_play) = inr (RevContinue Coin).
Proof.
  split; [vm_compute; reflexivity|]. split; [vm_compute; lia|].
  refine (proj1 (C10_offgrid_reveal w_play gidA "alice" 0 7 game_play
                   (repeat (Some false) 5) _ _ _ _ _ _));
    vm_compute; try reflexivity; lia.
Defined.

(** C10 as stated fails: bob confirmed a grid whose row 0 has a sixth
    entry set to 1; alice's reveal of the off-grid position (0,5) on the
    5x5 match is a bomb. *)
Lemma C10_offgrid_reveal_counterexample :
  grid_size_of (get_or_dummy (game_of w_long gidA)) = 5%nat /\
  phase_of w_long gidA = Some Gameplay /\
  fst (revealField gidA "alice" 0 5 w_long) = inr (RevEnded (Some "bob"%string) Bomb).
Proof. repeat split; vm_compute; reflexivity. Qed.

(** ** C6: repeated reveals and reveal errors *)

Ltac reveal_cases :=
  unfold revealField, bind, lookup_game, modify, ret, throw; cbv beta iota zeta.

Lemma revealField_error_unchanged w g p x y e w' :
  revealField g p x y w = (inl e, w') -> w' = w.
Proof.
  reveal_cases.
  destruct (game_of w g) as [game|]; [|congruence].
  destruct (negb (Phase_eqb _ _)); [congruence|].
  destruct (negb (opt_is _ _)); [congruence|].
  destruct (nth_error _ x) as [row|]; [|congruence].
  destruct (truthy_cell _); [congruence|].
  destruct (has_bomb _ _ _); discriminate.
Qed.

Lemma revealField_success w g p x y r w' :
  revealField g p x y w = (inr r, w') ->
  revealed_at w g x y = false /\ revealed_at w' g x y = true.
Proof.
  destruct (game_of w g) as [game|] eqn:Hg;
    [|reveal_cases; rewrite Hg; discriminate].
  destruct (phase (state game)) eqn:Hph;
    try (reveal_cases; rewrite Hg, Hph; discriminate).
  destruct (currentPlayer (state game)) as [c|] eqn:Hc;
    [|reveal_cases; rewrite Hg, Hph, Hc; discriminate].
  destruct (String.eqb c p) eqn:Ecp;
    [|reveal_cases; rewrite Hg, Hph, Hc; cbn [Phase_eqb opt_is negb]; rewrite Ecp; discriminate].
  apply String.eqb_eq in Ecp. subst c.
  destruct (nth_error (revealedFields (state game)) x) as [row|] eqn:Hrow;
    [|reveal_cases; rewrite Hg, Hph, Hc; cbn [Phase_eqb opt_is negb];
      rewrite String.eqb_refl, Hrow; discriminate].
  destruct (truthy_cell (nth_error row y)) eqn:Hcell;
    [reveal_cases; rewrite Hg, Hph, Hc; cbn [Phase_eqb opt_is negb];
     rewrite String.eqb_refl, Hrow, Hcell; discriminate|].
  intros H. rewrite (revealField_ok w g p x y game row Hg Hph Hc Hrow Hcell) in H.
  assert (Hb : revealed_at w g x y = false)
    by (unfold revealed_at; rewrite Hg, Hrow; exact Hcell).
  assert (Hw1 : revealed_at (put_game g (mark_revealed x y game) w) g x y = true)
    by (apply revealed_after_mark with row; exact Hrow).
  split; [exact Hb|].
  destruct (has_bomb _ x y); injection H as _ <-; [exact Hw1|].
  unfold revealed_at. rewrite game_of_startTimer, game_of_clearTimer, game_of_put_game.
  unfold revealed_at in Hw1. rewrite game_of_put_game in Hw1. exact Hw1.
Qed.

Lemma revealField_on_revealed w g p x y :
  revealed_at w g x y = true ->
  exists e, revealField g p x y w = (inl e, w) /\
    (forall game, game_of w g = Some game -> phase (state game) = Gameplay ->
                  currentPlayer (state game) = Some p -> e = ErrRevealed).
Proof.
  intros H. unfold revealed_at in H.
  destruct (game_of w g) as [game|] eqn:Hg; [|discriminate].
  destruct (nth_error (revealedFields (state game)) x) as [row|] eqn:Hrow; [|discriminate].
  reveal_cases. rewrite Hg.
  destruct (negb (Phase_eqb (phase (state game)) Gameplay)) eqn:Hph.
  { eexists. split; [reflexivity|]. intros gm Hgm Hp.
    injection Hgm as <-. rewrite Hp in Hph. discriminate. }
  destruct (negb (opt_is (currentPlayer (state game)) p)) eqn:Hc.
  { eexists. split; [reflexivity|]. intros gm Hgm _ Hcp.
    injection Hgm as <-. rewrite Hcp in Hc. cbn in Hc. rewrite String.eqb_refl in Hc.
    discriminate. }
  rewrite Hrow, H. eexists. split; [reflexivity|]. reflexivity.
Qed.

(** C6 (amended).  A reveal succeeds only on a cell that is not yet
    revealed, and after it the cell is revealed; a reveal of an already
    revealed cell always fails, and it fails with AlreadyRevealed when the
    match is in Gameplay and the caller holds the turn (otherwise the
    WrongPhase or WrongTurn check comes first, e.g. for the player who just
    revealed it and lost the turn); every error of [revealField] leaves the
    whole state unchanged. *)
Theorem C6_reveal_once (w : World) (g p : string) (x y : nat) :
  (forall r w', revealField g p x y w = (inr r, w') ->
     revealed_at w g x y = false /\ revealed_at w' g x y = true) /\
  (revealed_at w g x y = true ->
     exists e, revealField g p x y w = (inl e, w) /\
       (forall game, game_of w g = Some game -> phase (state game) = Gameplay ->
                     currentPlayer (state game) = Some p -> e = ErrRevealed)) /\
  (forall e w', revealField g p x y w = (inl e, w') -> w' = w).
Proof.
  split; [intros r w'; apply revealField_success|].
  split; [apply revealField_on_revealed|].
  intros e w'. apply revealField_error_unchanged.
Qed.

(** C6 as stated fails: after alice reveals the coin at (0,0), her second
    reveal of (0,0) fails with WrongTurn, not AlreadyRevealed (bob's reveal
    of it does give AlreadyRevealed). *)
Lemma C6_reveal_once_counterexample :
  fst (revealField gidA "alice" 0 0 w_play) = inr (RevContinue Coin) /\
  fst (revealField gidA "alice" 0 0 (snd (revealField gidA "alice" 0 0 w_play))) = inl ErrTurn /\
  fst (revealField gidA "bob" 0 0 (snd (revealField gidA "alice" 0 0 w_play))) = inl ErrRevealed.
Proof. repeat split; vm_compute; reflexivity. Qed.

(** ** C2: the per-turn timeout *)

Definition w_timeout : World := run w_play (repeat (EvTick 2 []) 5).

(** C2 fails on the code: the per-turn [onComplete] is
    [() => { this.handleRoundTimeout(gameId); }], and [handleRoundTimeout]
    only computes and returns the winner, so running it changes nothing;
    in the scenario, five ticks of alice's turn timer end with the match
    still in Gameplay and InProgress, with no live timer left, while the
    winner computed and discarded is bob. *)
Theorem C2_timeout_leaves_match_open :
  (forall g d w, run_cb g OnRound d w = w) /\
  map iv_game (live w_play) = [gidA] /\
  phase_of w_timeout gidA = Some Gameplay /\
  option_map status (game_of w_timeout gidA) = Some InProgress /\
  live w_timeout = [] /\
  fst (handleRoundTimeout gidA w_timeout) = Some (Some "bob"%string) /\
  revealed_at w_timeout gidA 0 0 = false.
Proof.
  split.
  - intros g d w. simpl. unfold handleRoundTimeout. destruct (game_of w g); reflexivity.
  - repeat split; vm_compute; reflexivity.
Qed.

(** ** C3: phase order *)

Definition w_ended : World := run w_play [EvExit "alice" gidA].
Definition w_reopened : World := step w_ended (EvConfirm "bob" gidA gridB).

(** C3 fails on the code: [confirmBombPlacement] has no phase check.  After
    alice exits (the match is Ended and Completed), bob's confirmation
    within the 5-second removal delay sets the phase back to Gameplay and
    arms a new per-turn timer. *)
Theorem C3_phase_goes_back :
  phase_of w_play gidA = Some Gameplay /\
  phase_of w_ended gidA = Some Ended /\
  option_map status (game_of w_ended gidA) = Some Completed /\
  phase_of w_reopened gidA = Some Gameplay /\
  map iv_game (live w_reopened) = [gidA].
Proof. repeat split; vm_compute; reflexivity. Qed.

(** ** C8: bomb placements *)

Definition placements_of (w : World) (g : string) : list (string * Grid) :=
  match game_of w g with Some gm => bombPlacements gm | None => [] end.

(** C8 fails on the code: [confirmBombPlacement] checks neither that the
    sender is a participant nor the phase.  In Gameplay, carol (not a
    participant) adds a third entry, and alice replaces her grid. *)
Theorem C8_placements_unguarded :
  phase_of w_play gidA = Some Gameplay /\
  List.length (placements_of w_play gidA) = 2%nat /\
  List.length (placements_of (step w_play (EvConfirm "carol" gidA gridA)) gidA) = 3%nat /\
  map_get "alice" (placements_of w_play gidA) = Some gridA /\
  map_get "alice" (placements_of (step w_play (EvConfirm "alice" gidA gridB)) gidA) = Some gridB /\
  phase_of (step w_play (EvConfirm "alice" gidA gridB)) gidA = Some Gameplay.
Proof. repeat split; vm_compute; reflexivity. Qed.

(** ** C4: repeated [endGame] *)

Lemma map_set_get_same {V} (k : string) (v : V) (m : list (string * V)) :
  map_get k m = Some v -> map_set k v m = m.
Proof.
  induction m as [|[k' v'] m IH]; simpl; intros H; [discriminate|].
  destruct (String.eqb k k') eqn:E.
  - injection H as ->. apply String.eqb_eq in E. subst. reflexivity.
  - rewrite IH by exact H. reflexivity.
Qed.

Lemma clearTimer_gone g w : map_get g (timers (clearTimer g w)) = None.
Proof.
  unfold clearTimer. destruct (map_get g (timers w)) eqn:E; [|exact E].
  cbn [timers]. apply map_get_delete_eq.
Qed.

Definition ended_game (gm : Game) : Game :=
  set_state (set_phase Ended (state gm)) (set_status Completed gm).

Lemma ended_game_idem gm : ended_game (ended_game gm) = ended_game gm.
Proof. destruct gm as [? ? ? ? ? ? ? ? ? ? [] ? ?]. reflexivity. Qed.

(** [endGame] on a match it has already ended only schedules a removal. *)
Lemma endGame_again w g gm :
  game_of w g = Some (ended_game gm) -> map_get g (timers w) = None ->
  endGame g w = with_pending (pending w ++ [g]) w.
Proof.
  intros Hg Ht. unfold endGame. rewrite Hg. fold (ended_game (ended_game gm)).
  rewrite ended_game_idem. unfold put_game. rewrite map_set_get_same by exact Hg.
  unfold clearTimer, with_games. cbn [timers]. rewrite Ht. destruct w; reflexivity.
Qed.

Lemma iter_endGame_again n w g gm :
  game_of w g = Some (ended_game gm) -> map_get g (timers w) = None ->
  Nat.iter n (endGame g) w = with_pending (pending w ++ repeat g n) w.
Proof.
  intros Hg Ht. induction n as [|n IH]; simpl.
  - rewrite app_nil_r. destruct w; reflexivity.
  - rewrite IH. rewrite (endGame_again _ g gm); [|exact Hg|exact Ht].
    unfold with_pending. cbn [pending games timers live next_iv].
    rewrite <- app_assoc, <- repeat_cons. reflexivity.
Qed.

(** C4 (amended).  On a match present in the registry, [endGame] sets status
    Completed and phase Ended, leaves no live timer for it, and schedules
    its removal; each further call leaves everything as after the first,
    except that it schedules one more removal of the same id, a no-op once
    the first removal has run. *)
Theorem C4_endGame_repeat (w : World) (g : string) (game : Game) :
  reachable w -> game_of w g = Some game ->
  let w1 := endGame g w in
  game_of w1 g = Some (ended_game game) /\
  (forall iv, In iv (live w1) -> iv_game iv <> g) /\
  pending w1 = pending w ++ [g] /\
  (forall n, Nat.iter n (endGame g) w1 = with_pending (pending w1 ++ repeat g n) w1) /\
  (forall m : list (string * Game), map_delete g (map_delete g m) = map_delete g m).
Proof.
  intros Hr Hg w1. pose proof (reachable_TimerInv w Hr) as Hinv.
  pose proof (endGame_effect w g game Hinv Hg) as (H1 & H2 & _).
  assert (Ht : map_get g (timers w1) = None).
  { unfold w1. rewrite (endGame_present w g game Hg). cbv zeta.
    unfold with_pending. cbn [timers]. apply clearTimer_gone. }
  split; [exact H1|]. split; [exact H2|]. split.
  - unfold w1. rewrite (endGame_present w g game Hg). cbv zeta.
    cbn [pending]. rewrite clearTimer_pending. reflexivity.
  - split; [|intros m; apply map_delete_idem].
    intros n. apply (iter_endGame_again n w1 g game); assumption.
Qed.

Lemma C4_endGame_repeat_witness :
  game_of w_play gidA = Some game_play /\
  Nat.iter 1 (endGame gidA) (endGame gidA w_play) =
    with_pending (pending (endGame gidA w_play) ++ repeat gidA 1) (endGame gidA w_play).
Proof.
  assert (Hg : game_of w_play gidA = Some game_play) by (vm_compute; reflexivity).
  split; [exact Hg|].
  pose proof (C4_endGame_repeat w_play gidA game_play reachable_w_play Hg) as H.
  cbv zeta in H. destruct H as (_ & _ & _ & Hn & _).
  exact (Hn 1%nat).
Defined.

(** C4 as stated fails: a second [endGame] schedules a second removal. *)
Lemma C4_endGame_repeat_counterexample :
  pending (endGame gidA w_play) = [gidA] /\
  pending (endGame gidA (endGame gidA w_play)) = [gidA; gidA] /\
  endGame gidA (endGame gidA w_play) <> endGame gidA w_play.
Proof.
  split; [vm_compute; reflexivity|]. split; [vm_compute; reflexivity|].
  intros H. apply (f_equal pending) in H. vm_compute in H. discriminate.
Qed.

(** ** C7: the open-games listing *)

Definition newer_or_same (a b : OpenGame) : Prop := o_createdAt b <= o_createdAt a.

Lemma insert_desc_perm a l : Permutation (insert_desc a l) (a :: l).
Proof.
  induction l as [|b l IH]; simpl; [reflexivity|].
  destruct (o_createdAt b - o_createdAt a <=? 0); [reflexivity|].
  rewrite IH. apply perm_swap.
Qed.

Lemma sort_desc_perm l : Permutation (sort_desc l) l.
Proof.
  induction l as [|a l IH]; simpl; [reflexivity|].
  rewrite insert_desc_perm. apply perm_skip. exact IH.
Qed.

Lemma insert_desc_sorted a l :
  Sorted newer_or_same l -> Sorted newer_or_same (insert_desc a l).
Proof.
  induction l as [|b l IH]; simpl; intros Hs.
  - repeat constructor.
  - destruct (o_createdAt b - o_createdAt a <=? 0) eqn:E.
    + apply Z.leb_le in E. constructor; [exact Hs|]. constructor. unfold newer_or_same. lia.
    + apply Z.leb_gt in E. inversion Hs as [|? ? Hs' Hhd]; subst.
      constructor; [apply IH; exact Hs'|].
      destruct l as [|c l]; simpl.
      * constructor. unfold newer_or_same. lia.
      * inversion Hhd as [|? ? Hbc]; subst.
        destruct (o_createdAt c - o_createdAt a <=? 0);
          constructor; unfold newer_or_same in *; lia.
Qed.

Lemma sort_desc_sorted l : Sorted newer_or_same (sort_desc l).
Proof.
  induction l as [|a l IH]; simpl; [constructor|]. apply insert_desc_sorted. exact IH.
Qed.

Definition o_waiting (o : OpenGame) : bool :=
  match o_status o with Waiting => true | _ => false end.

Lemma map_project_filter l :
  map project (filter is_waiting l) = filter o_waiting (map project l).
Proof.
  induction l as [|a l IH]; [reflexivity|].
  cbn [filter map]. unfold is_waiting at 1, o_waiting at 1. cbn [project o_status].
  destruct (status a); cbn [map]; rewrite IH; reflexivity.
Qed.

(** C7.  [getOpenGames] lists exactly the projections of the stored
    matches whose status is Waiting, ordered by [createdAt] descending; a
    projection carries only id, creator, size, bombs, betAmount, status and
    createdAt, and the listing is determined by these fields alone: two
    registries whose matches agree on them (whatever their wallet secrets,
    bomb placements or revealed grids) give the same listing. *)
Theorem C7_open_games (w : World) :
  Sorted newer_or_same (getOpenGames w) /\
  Permutation (getOpenGames w) (map project (filter is_waiting (map snd (games w)))) /\
  Forall (fun o => o_status o = Waiting) (getOpenGames w) /\
  (forall w', map (fun kg => project (snd kg)) (games w) =
              map (fun kg => project (snd kg)) (games w') ->
              getOpenGames w = getOpenGames w').
Proof.
  split; [apply sort_desc_sorted|]. split; [apply sort_desc_perm|]. split.
  - apply Forall_forall. intros o Hin. unfold getOpenGames in Hin.
    apply (Permutation_in _ (sort_desc_perm _)) in Hin.
    rewrite map_project_filter in Hin. apply filter_In in Hin as (_ & Ho).
    unfold o_waiting in Ho. destruct (o_status o); congruence.
  - intros w' Heq. unfold getOpenGames.
    rewrite !map_project_filter, !map_map. rewrite Heq. reflexivity.
Qed.

(** ** C9: game ids *)

(** C9 (amended).  [createGame] draws its id at random and does not look at
    the live ids: with a valid size it stores the new match under the drawn
    id with [this.games.set], which replaces a live match that has the same
    id and leaves every other entry as it was. *)
Theorem C9_create_overwrites (d : GameData) (r1 r2 : string) (now : Z) (w : World) (n : nat) :
  parse_size (gd_size d) = Some n ->
  let gid := generateGameId r1 r2 in
  exists game,
    createGame d r1 r2 now w = (inr game, put_game gid game w) /\
    id game = gid /\ status game = Waiting /\ creator game = gd_creator d /\
    game_of (put_game gid game w) gid = Some game /\
    (forall k, k <> gid -> game_of (put_game gid game w) k = game_of w k).
Proof.
  intros Hs gid. unfold createGame, bind, modify, ret. rewrite Hs. cbv beta zeta.
  eexists. split; [reflexivity|]. cbn [id status creator].
  split; [reflexivity|]. split; [reflexivity|]. split; [reflexivity|].
  split; [apply game_of_put_game|].
  intros k Hk. apply game_of_put_game_neq. congruence.
Qed.

Lemma C9_create_overwrites_witness :
  parse_size "5x5" = Some 5%nat /\
  id (get_or_dummy (game_of (on_create dataA "0.abcdefghijklm" "0.nopqrstuvwxy" 2000 w_play) gidA))
    = gidA.
Proof.
  split; [reflexivity|].
  destruct (C9_create_overwrites dataA "0.abcdefghijklm" "0.nopqrstuvwxy" 2000 w_play 5
              eq_refl) as (game & Hc & Hid & _ & _ & Hget & _).
  unfold on_create. rewrite Hc. cbn [snd].
  change gidA with (generateGameId "0.abcdefghijklm" "0.nopqrstuvwxy").
  rewrite Hget. exact Hid.
Defined.

Definition dataC : GameData := mkData "carol" "3x3" 1 2 "wallet2" [9].
Definition w_collide : World :=
  step w_play (EvCreate dataC "0.abcdefghijklm" "0.nopqrstuvwxy" 2000).

(** C9 as stated fails: when the random draws repeat the id of alice and
    bob's live match, carol's new match replaces it in the registry. *)
Lemma C9_create_overwrites_counterexample :
  option_map creator (game_of w_play gidA) = Some "alice"%string /\
  option_map status (game_of w_play gidA) = Some InProgress /\
  option_map creator (game_of w_collide gidA) = Some "carol"%string /\
  option_map status (game_of w_collide gidA) = Some Waiting /\
  List.length (games w_collide) = 1%nat.
Proof. repeat split; vm_compute; reflexivity. Qed.

(** * Further properties of the game manager and the server handlers *)

Lemma game_of_with_pending p w g : game_of (with_pending p w) g = game_of w g.
Proof. reflexivity. Qed.

Lemma game_of_update_game_neq g k f w : g <> k -> game_of (update_game g f w) k = game_of w k.
Proof.
  intros H. unfold update_game. destruct (game_of w g); [|reflexivity].
  apply game_of_put_game_neq. exact H.
Qed.

Lemma game_of_update_game_eq g f w gm :
  game_of w g = Some gm -> game_of (update_game g f w) g = Some (f gm).
Proof. intros H. unfold update_game. rewrite H. apply game_of_put_game. Qed.

(** ** [joinGame] *)

(** X1.  [joinGame] fails with 'Game not found' on an unknown id, with
    'Game is full' when an opponent is set, and with 'Cannot join your own
    game' when the creator joins; each failure leaves the state unchanged.
    Otherwise it sets the opponent and status InProgress on that match,
    stores it back and returns it. *)
Theorem X1_joinGame_outcomes (g p : string) (w : World) :
  (game_of w g = None -> joinGame g p w = (inl ErrNotFound, w)) /\
  (forall gm, game_of w g = Some gm -> truthy_str (opponent gm) = true ->
     joinGame g p w = (inl ErrFull, w)) /\
  (forall gm, game_of w g = Some gm -> truthy_str (opponent gm) = false ->
     creator gm = p -> joinGame g p w = (inl ErrSelf, w)) /\
  (forall gm, game_of w g = Some gm -> truthy_str (opponent gm) = false ->
     creator gm <> p ->
     let gm' := set_status InProgress (set_opponent (Some p) gm) in
     joinGame g p w = (inr gm', put_game g gm' w)).
Proof.
  unfold joinGame, bind, lookup_game, modify, ret, throw. cbv beta.
  split; [intros H; rewrite H; reflexivity|].
  split; [intros gm H Ho; rewrite H, Ho; reflexivity|].
  split; [intros gm H Ho Hc; rewrite H, Ho, Hc, String.eqb_refl; reflexivity|].
  intros gm H Ho Hc. rewrite H, Ho.
  destruct (String.eqb (creator gm) p) eqn:E; [apply String.eqb_eq in E; contradiction|].
  reflexivity.
Qed.

(** ** Unknown match ids *)

(** X2.  Every operation addressed to a match id that is not in the
    registry does nothing: [revealField] and [joinGame] fail with 'Game not
    found' without a change, and the other operations of the manager and
    the socket handlers return the state unchanged. *)
Theorem X2_unknown_id_noop (w : World) (g p : string) :
  game_of w g = None ->
  (forall x y, revealField g p x y w = (inl ErrNotFound, w)) /\
  joinGame g p w = (inl ErrNotFound, w) /\
  (forall grid, confirmBombPlacement g p grid w = w) /\
  endGame g w = w /\ exitGame g p w = w /\ startGame g w = w /\
  startGameplayPhase g w = w /\ (forall d, autoPlaceBombs g d w = w) /\
  (forall bet ok, on_join g p bet ok w = w) /\
  (forall grid, on_confirm p g grid w = w) /\
  (forall x y ok, on_reveal p g x y ok w = w).
Proof.
  intros H.
  assert (Hr : forall x y, revealField g p x y w = (inl ErrNotFound, w))
    by (intros x y; unfold revealField, bind, lookup_game, throw; cbv beta; rewrite H; reflexivity).
  assert (Hc : forall grid, confirmBombPlacement g p grid w = w)
    by (intros grid; unfold confirmBombPlacement; rewrite H; reflexivity).
  split; [exact Hr|]. split; [apply X1_joinGame_outcomes; exact H|].
  split; [exact Hc|].
  split; [unfold endGame; rewrite H; reflexivity|].
  split; [unfold exitGame; rewrite H; reflexivity|].
  split; [unfold startGame; rewrite H; reflexivity|].
  split; [unfold startGameplayPhase; rewrite H; reflexivity|].
  split; [intros d; unfold autoPlaceBombs; rewrite H; reflexivity|].
  split; [intros bet ok; unfold on_join; rewrite H; reflexivity|].
  split; [intros grid; unfold on_confirm; rewrite Hc, H; reflexivity|].
  intros x y ok. unfold on_reveal. rewrite Hr. reflexivity.
Qed.

Lemma X2_unknown_id_noop_witness :
  game_of w_play "nope" = None /\ endGame "nope" w_play = w_play.
Proof.
  assert (H : game_of w_play "nope" = None) by (vm_compute; reflexivity).
  split; [exact H|].
  exact (proj1 (proj2 (proj2 (proj2 (X2_unknown_id_noop w_play "nope" "alice" H))))).
Defined.

(** ** Isolation between matches *)

Ltac frame_solve :=
  repeat (cbv beta zeta; cbn [fst snd];
    match goal with
    | |- context [match ?x with _ => _ end] => destruct x
    | |- context [if ?b then _ else _] => destruct b
    end); cbn [fst snd];
  repeat first [ rewrite game_of_startTimer | rewrite game_of_clearTimer
               | rewrite game_of_with_pending
               | rewrite game_of_put_game_neq by assumption
               | rewrite game_of_update_game_neq by assumption ];
  try reflexivity.

Lemma revealField_frame g p x y w k :
  g <> k -> game_of (snd (revealField g p x y w)) k = game_of w k.
Proof.
  intros Hk. unfold revealField, bind, lookup_game, modify, ret, throw. frame_solve.
Qed.

Lemma joinGame_frame g p w k :
  g <> k -> game_of (snd (joinGame g p w)) k = game_of w k.
Proof. intros Hk. unfold joinGame, bind, lookup_game, modify, ret, throw. frame_solve. Qed.

Lemma startGameplayPhase_frame g w k :
  g <> k -> game_of (startGameplayPhase g w) k = game_of w k.
Proof. intros Hk. unfold startGameplayPhase. frame_solve. Qed.

Lemma confirmBombPlacement_frame g p grid w k :
  g <> k -> game_of (confirmBombPlacement g p grid w) k = game_of w k.
Proof.
  intros Hk. unfold confirmBombPlacement. destruct (game_of w g); [|reflexivity].
  cbv zeta. destruct (_ =? 2)%nat;
    rewrite ?startGameplayPhase_frame, ?game_of_clearTimer, ?game_of_update_game_neq
      by assumption; apply game_of_put_game_neq; exact Hk.
Qed.

Lemma endGame_frame g w k : g <> k -> game_of (endGame g w) k = game_of w k.
Proof. intros Hk. unfold endGame. frame_solve. Qed.

Lemma exitGame_frame g p w k : g <> k -> game_of (exitGame g p w) k = game_of w k.
Proof.
  intros Hk. unfold exitGame. destruct (game_of w g); [|reflexivity].
  destruct (_ && _); [apply endGame_frame; exact Hk|].
  destruct (_ || _); [apply endGame_frame; exact Hk | reflexivity].
Qed.

Lemma autoPlaceBombs_frame g d w k :
  g <> k -> game_of (autoPlaceBombs g d w) k = game_of w k.
Proof.
  intros Hk. unfold autoPlaceBombs. destruct (game_of w g); [|reflexivity].
  destruct (parse_size _); [|reflexivity]. apply game_of_put_game_neq. exact Hk.
Qed.

Lemma startGame_frame g w k : game_of (startGame g w) k = game_of w k.
Proof. unfold startGame. destruct (game_of w g); [apply game_of_startTimer | reflexivity]. Qed.

Lemma on_join_frame g p bet ok w k :
  g <> k -> game_of (on_join g p bet ok w) k = game_of w k.
Proof.
  intros Hk. unfold on_join. pose proof (joinGame_frame g p w k Hk) as Hj.
  destruct (game_of w g); [|reflexivity]. destruct (status g0); try reflexivity.
  repeat (destruct (_ : bool); try reflexivity).
  destruct (joinGame g p w) as [[e|gm] w'] eqn:E; cbn [snd] in Hj;
    [exact Hj | rewrite startGame_frame; exact Hj].
Qed.

Lemma on_confirm_frame p g grid w k :
  g <> k -> game_of (on_confirm p g grid w) k = game_of w k.
Proof.
  intros Hk. unfold on_confirm.
  destruct (game_of (confirmBombPlacement g p grid w) g); [destruct (bothPlayersReady _)|];
    rewrite ?startGameplayPhase_frame by exact Hk; apply confirmBombPlacement_frame; exact Hk.
Qed.

Lemma on_reveal_frame p g x y ok w k :
  g <> k -> game_of (on_reveal p g x y ok w) k = game_of w k.
Proof.
  intros Hk. unfold on_reveal. pose proof (revealField_frame g p x y w k Hk) as Hr.
  destruct (revealField g p x y w) as [[e|[winner c|c]] w']; cbn [snd] in Hr; try exact Hr.
  destruct (_ && _); [exact Hr|]. rewrite endGame_frame by exact Hk. exact Hr.
Qed.

Lemma run_cb_frame g cb d w k :
  g <> k -> game_of (run_cb g cb d w) k = game_of w k.
Proof.
  intros Hk. destruct cb; cbn [run_cb].
  - rewrite startGameplayPhase_frame, autoPlaceBombs_frame by exact Hk. reflexivity.
  - unfold handleRoundTimeout. destruct (game_of w g); reflexivity.
Qed.

Lemma tick_frame tid d w k :
  (forall iv, In iv (live w) -> iv_id iv = tid -> iv_game iv <> k) ->
  game_of (tick tid d w) k = game_of w k.
Proof.
  intros Hno. unfold tick, tick_core.
  destruct (find (fun iv => Nat.eqb (iv_id iv) tid) (live w)) as [iv|] eqn:Ef; [|reflexivity].
  apply find_some in Ef as (Hin & Hid). apply Nat.eqb_eq in Hid.
  specialize (Hno iv Hin Hid). cbv zeta.
  destruct (game_of w (iv_game iv)); [|apply game_of_clearTimer].
  destruct (_ <=? 0);
    [rewrite run_cb_frame by exact Hno; rewrite game_of_clearTimer|];
    rewrite game_of_put_game_neq by exact Hno; reflexivity.
Qed.

(** X3.  Operations addressed to one match never change another match of
    the registry: revealing, joining, confirming a placement, ending,
    exiting, starting a phase, auto-placing bombs and the matching socket
    handlers leave the entry of every other id as it was, and an interval
    that fires changes only the match it was started for. *)
Theorem X3_other_matches_untouched (w : World) (g k p : string) :
  g <> k ->
  (forall x y, game_of (snd (revealField g p x y w)) k = game_of w k) /\
  game_of (snd (joinGame g p w)) k = game_of w k /\
  (forall grid, game_of (confirmBombPlacement g p grid w) k = game_of w k) /\
  game_of (endGame g w) k = game_of w k /\
  game_of (exitGame g p w) k = game_of w k /\
  game_of (startGame g w) k = game_of w k /\
  game_of (startGameplayPhase g w) k = game_of w k /\
  (forall d, game_of (autoPlaceBombs g d w) k = game_of w k) /\
  (forall bet ok, game_of (on_join g p bet ok w) k = game_of w k) /\
  (forall grid, game_of (on_confirm p g grid w) k = game_of w k) /\
  (forall x y ok, game_of (on_reveal p g x y ok w) k = game_of w k) /\
  (forall tid d, (forall iv, In iv (live w) -> iv_id iv = tid -> iv_game iv = g) ->
     game_of (tick tid d w) k = game_of w k).
Proof.
  intros Hk.
  split; [intros; apply revealField_frame; exact Hk|].
  split; [apply joinGame_frame; exact Hk|].
  split; [intros; apply confirmBombPlacement_frame; exact Hk|].
  split; [apply endGame_frame; exact Hk|].
  split; [apply exitGame_frame; exact Hk|].
  split; [apply startGame_frame|].
  split; [apply startGameplayPhase_frame; exact Hk|].
  split; [intros; apply autoPlaceBombs_frame; exact Hk|].
  split; [intros; apply on_join_frame; exact Hk|].
  split; [intros; apply on_confirm_frame; exact Hk|].
  split; [intros; apply on_reveal_frame; exact Hk|].
  intros tid d Hg. apply tick_frame. intros iv Hin Hid. rewrite (Hg iv Hin Hid). exact Hk.
Qed.

Lemma X3_other_matches_untouched_witness :
  gidA <> "other"%string /\
  game_of (endGame gidA w_play) "other" = game_of w_play "other".
Proof.
  assert (H : gidA <> "other"%string) by (unfold gidA; discriminate).
  split; [exact H|].
  exact (proj1 (proj2 (proj2 (proj2 (X3_other_matches_untouched w_play gidA "other" "bob" H))))).
Defined.

(** ** [createGame] *)

Lemma map_set_In {V} (k : string) (v : V) (m : list (string * V)) : In (k, v) (map_set k v m).
Proof.
  induction m as [|[k' v'] m IH]; simpl; [left; reflexivity|].
  destruct (String.eqb k k') eqn:E; [apply String.eqb_eq in E; subst; left; reflexivity|].
  right. exact IH.
Qed.

Lemma put_game_listed g gm w :
  status gm = Waiting -> In (project gm) (getOpenGames (put_game g gm w)).
Proof.
  intros Hs. unfold getOpenGames. apply (Permutation_in _ (Permutation_sym (sort_desc_perm _))).
  apply in_map. apply filter_In. split; [|unfold is_waiting; rewrite Hs; reflexivity].
  apply in_map_iff. exists (g, gm). split; [reflexivity|]. apply map_set_In.
Qed.

(** X4.  [createGame] with a size whose first character is not a digit
    throws a RangeError and stores nothing.  With a first digit [n] it
    stores under the generated id a new match with that id: status Waiting,
    no opponent, phase Placement, round 1, 30 seconds, the creator to move,
    no bomb placements, not ready, and an [n] x [n] revealed grid of
    [false]; the new match then appears in [getOpenGames]. *)
Theorem X4_createGame_result (d : GameData) (r1 r2 : string) (now : Z) (w : World) :
  (parse_size (gd_size d) = None -> createGame d r1 r2 now w = (inl ErrRange, w)) /\
  (forall n, parse_size (gd_size d) = Some n ->
   let gid := generateGameId r1 r2 in
   exists gm, createGame d r1 r2 now w = (inr gm, put_game gid gm w) /\
     id gm = gid /\ creator gm = gd_creator d /\ status gm = Waiting /\
     opponent gm = None /\ createdAt gm = now /\
     phase (state gm) = Placement /\ round (state gm) = 1 /\ timeLeft (state gm) = 30 /\
     currentPlayer (state gm) = Some (gd_creator d) /\ bombPlacements gm = [] /\
     bothPlayersReady gm = false /\
     List.length (revealedFields (state gm)) = n /\
     Forall (fun row => row = repeat (Some false) n) (revealedFields (state gm)) /\
     In (project gm) (getOpenGames (put_game gid gm w))).
Proof.
  split; [intros H; unfold createGame; rewrite H; reflexivity|].
  intros n H gid. unfold createGame, bind, modify, ret. rewrite H. cbv beta zeta.
  eexists. split; [reflexivity|]. cbn [id creator status opponent createdAt state phase
    round timeLeft currentPlayer bombPlacements bothPlayersReady revealedFields].
  repeat (split; [reflexivity|]). split; [apply repeat_length|].
  split; [apply Forall_forall; intros row Hin; apply repeat_spec in Hin; exact Hin|].
  apply put_game_listed. reflexivity.
Qed.

(** ** Who may reveal *)

Lemma endGame_game w g gm :
  game_of w g = Some gm -> game_of (endGame g w) g = Some (ended_game gm).
Proof.
  intros H. rewrite (endGame_present w g gm H). cbv zeta.
  rewrite game_of_with_pending, game_of_clearTimer. apply game_of_put_game.
Qed.



(** ** The removal scheduled by [endGame] *)

(** X6.  With no removal pending, the timeout that [endGame] schedules
    deletes the ended match from the registry when it fires and leaves every
    other match as it was, with nothing pending afterwards; a firing with
    nothing pending changes nothing. *)
Theorem X6_scheduled_removal (w : World) (g : string) (gm : Game) :
  pending w = [] -> game_of w g = Some gm ->
  fire_delete w = w /\
  pending (endGame g w) = [g] /\
  game_of (fire_delete (endGame g w)) g = None /\
  (forall k, k <> g -> game_of (fire_delete (endGame g w)) k = game_of w k) /\
  pending (fire_delete (endGame g w)) = [].
Proof.
  intros Hp H.
  assert (He : pending (endGame g w) = [g]).
  { rewrite (endGame_present w g gm H). cbv zeta. cbn [pending].
    rewrite clearTimer_pending. cbn [pending put_game with_games]. rewrite Hp. reflexivity. }
  split; [unfold fire_delete; rewrite Hp; reflexivity|].
  split; [exact He|].
  unfold fire_delete. rewrite He. split; [|split].
  - apply map_get_delete_eq.
  - intros k Hk. unfold game_of at 1. cbn [games with_pending with_games].
    rewrite map_get_delete_neq by congruence. fold (game_of (endGame g w) k).
    apply endGame_frame. congruence.
  - reflexivity.
Qed.

Lemma X6_scheduled_removal_witness :
  pending w_play = [] /\ game_of w_play gidA = Some game_play /\
  game_of (fire_delete (endGame gidA w_play)) gidA = None.
Proof.
  assert (Hp : pending w_play = []) by (vm_compute; reflexivity).
  assert (H : game_of w_play gidA = Some game_play) by (vm_compute; reflexivity).
  split; [exact Hp|]. split; [exact H|].
  exact (proj1 (proj2 (proj2 (X6_scheduled_removal w_play gidA game_play Hp H)))).
Defined.

(** ** [exitGame] *)

(** X7.  [exitGame] by the creator or the opponent of a stored match is
    [endGame] on it (the match becomes Completed and Ended, whether or not
    an opponent has joined); by anyone else it changes nothing. *)
Theorem X7_exitGame (w : World) (g p : string) (gm : Game) :
  game_of w g = Some gm ->
  ((creator gm = p \/ opponent gm = Some p) ->
     exitGame g p w = endGame g w /\
     game_of (exitGame g p w) g = Some (ended_game gm) /\
     status (ended_game gm) = Completed /\ phase (state (ended_game gm)) = Ended) /\
  (creator gm <> p -> opponent gm <> Some p -> exitGame g p w = w).
Proof.
  intros H. split.
  - intros Hpart.
    assert (Hx : exitGame g p w = endGame g w).
    { unfold exitGame. rewrite H.
      destruct (_ && _); [reflexivity|].
      destruct Hpart as [Hc | Ho].
      + rewrite Hc, String.eqb_refl. reflexivity.
      + rewrite Ho. cbn [opt_is]. rewrite String.eqb_refl, orb_true_r. reflexivity. }
    split; [exact Hx|]. rewrite Hx. split; [apply endGame_game; exact H|].
    split; reflexivity.
  - intros Hc Ho. unfold exitGame. rewrite H.
    destruct (String.eqb (creator gm) p) eqn:E; [apply String.eqb_eq in E; contradiction|].
    cbn [andb orb]. destruct (opponent gm) as [o|]; [|reflexivity]. cbn [opt_is].
    destruct (String.eqb o p) eqn:E'; [apply String.eqb_eq in E'; subst; contradiction|].
    reflexivity.
Qed.

Lemma X7_exitGame_witness :
  game_of w_play gidA = Some game_play /\
  exitGame gidA "mallory"%string w_play = w_play.
Proof.
  assert (H : game_of w_play gidA = Some game_play) by (vm_compute; reflexivity).
  split; [exact H|].
  apply (proj2 (X7_exitGame w_play gidA "mallory"%string game_play H));
    vm_compute; discriminate.
Defined.

(** ** Sweeps over the registry: [handlePlayerDisconnect] and [cleanupOldGames] *)

Lemma map_get_in_keys {V} (k : string) (v : V) (m : list (string * V)) :
  map_get k m = Some v -> In k (map fst m).
Proof.
  induction m as [|[k' v'] m IH]; simpl; [discriminate|].
  destruct (String.eqb k k') eqn:E; [apply String.eqb_eq in E; left; congruence|].
  intros H. right. exact (IH H).
Qed.

Definition takes_part (p : string) (gm : Game) : bool :=
  String.eqb (creator gm) p || opt_is (opponent gm) p.

Lemma takes_part_iff p gm :
  takes_part p gm = true <-> creator gm = p \/ opponent gm = Some p.
Proof.
  unfold takes_part. rewrite orb_true_iff, String.eqb_eq.
  destruct (opponent gm) as [o|]; cbn [opt_is]; rewrite ?String.eqb_eq; split;
    intros [H|H]; try (left; exact H); try (right; congruence); discriminate.
Qed.

Lemma takes_part_ended p gm : takes_part p (ended_game gm) = takes_part p gm.
Proof. reflexivity. Qed.

Lemma exitGame_takes_part w k p gm :
  game_of w k = Some gm -> takes_part p gm = true -> exitGame k p w = endGame k w.
Proof.
  intros H Hp. unfold exitGame. rewrite H. unfold takes_part in Hp.
  destruct (_ && _); [reflexivity|]. rewrite Hp. reflexivity.
Qed.

Lemma disconnect_loop_keep p ks w k gm :
  game_of w k = Some gm -> takes_part p gm = false ->
  game_of (disconnect_loop p ks w) k = Some gm.
Proof.
  revert w. induction ks as [|k' ks IH]; intros w H Hp; cbn [disconnect_loop]; [exact H|].
  apply IH; [|exact Hp].
  destruct (String.eqb_spec k' k) as [->|Hne].
  - rewrite H. fold (takes_part p gm). rewrite Hp. exact H.
  - destruct (game_of w k'); [destruct (_ || _)|]; try exact H.
    rewrite exitGame_frame by exact Hne. exact H.
Qed.

Lemma disconnect_loop_ended p ks w k gm :
  game_of w k = Some (ended_game gm) -> takes_part p gm = true ->
  game_of (disconnect_loop p ks w) k = Some (ended_game gm).
Proof.
  revert w. induction ks as [|k' ks IH]; intros w H Hp; cbn [disconnect_loop]; [exact H|].
  apply IH; [|exact Hp].
  destruct (String.eqb_spec k' k) as [->|Hne].
  - rewrite H. fold (takes_part p (ended_game gm)). rewrite takes_part_ended, Hp.
    rewrite (exitGame_takes_part w k p (ended_game gm) H) by (rewrite takes_part_ended; exact Hp).
    rewrite (endGame_game w k _ H). rewrite ended_game_idem. reflexivity.
  - destruct (game_of w k'); [destruct (_ || _)|]; try exact H.
    rewrite exitGame_frame by exact Hne. exact H.
Qed.

Lemma disconnect_loop_ends p ks w k gm :
  game_of w k = Some gm -> takes_part p gm = true -> In k ks ->
  game_of (disconnect_loop p ks w) k = Some (ended_game gm).
Proof.
  revert w. induction ks as [|k' ks IH]; intros w H Hp Hin; [destruct Hin|].
  cbn [disconnect_loop].
  destruct (String.eqb_spec k' k) as [->|Hne].
  - apply disconnect_loop_ended; [|exact Hp].
    rewrite H. fold (takes_part p gm). rewrite Hp.
    rewrite (exitGame_takes_part w k p gm H Hp). apply endGame_game. exact H.
  - destruct Hin as [Heq|Hin]; [contradiction|]. apply IH; [|exact Hp|exact Hin].
    destruct (game_of w k'); [destruct (_ || _)|]; try exact H.
    rewrite exitGame_frame by exact Hne. exact H.
Qed.

(** X8.  On a disconnect of player [p], every stored match in which [p]
    is the creator or the opponent is ended (Completed, Ended), whatever its
    phase or status, and every other match is left unchanged. *)
Theorem X8_disconnect_ends_own_matches (w : World) (p k : string) (gm : Game) :
  game_of w k = Some gm ->
  ((creator gm = p \/ opponent gm = Some p) ->
     game_of (handlePlayerDisconnect p w) k = Some (ended_game gm)) /\
  (creator gm <> p -> opponent gm <> Some p ->
     game_of (handlePlayerDisconnect p w) k = Some gm).
Proof.
  intros H. unfold handlePlayerDisconnect. split.
  - intros Hp. apply disconnect_loop_ends; [exact H| apply takes_part_iff; exact Hp|].
    exact (map_get_in_keys k gm (games w) H).
  - intros Hc Ho. apply disconnect_loop_keep; [exact H|].
    destruct (takes_part p gm) eqn:E; [|reflexivity].
    apply takes_part_iff in E as [E|E]; contradiction.
Qed.

Lemma X8_disconnect_ends_own_matches_witness :
  game_of w_play gidA = Some game_play /\
  game_of (handlePlayerDisconnect "bob" w_play) gidA = Some (ended_game game_play).
Proof.
  assert (H : game_of w_play gidA = Some game_play) by (vm_compute; reflexivity).
  split; [exact H|].
  apply (proj1 (X8_disconnect_ends_own_matches w_play "bob" gidA game_play H)).
  right. vm_compute. reflexivity.
Defined.

Definition too_old (now : Z) (gm : Game) : bool := now - createdAt gm >? 30 * 60 * 1000.

Lemma cleanup_loop_keep now ks w k gm :
  game_of w k = Some gm -> too_old now gm = false ->
  game_of (cleanup_loop now ks w) k = Some gm.
Proof.
  revert w. induction ks as [|k' ks IH]; intros w H Ho; cbn [cleanup_loop]; [exact H|].
  apply IH; [|exact Ho].
  destruct (String.eqb_spec k' k) as [->|Hne].
  - rewrite H. fold (too_old now gm). rewrite Ho. exact H.
  - destruct (game_of w k'); [destruct (_ >? _)|]; try exact H.
    rewrite endGame_frame by exact Hne. exact H.
Qed.

Lemma cleanup_loop_ended now ks w k gm :
  game_of w k = Some (ended_game gm) -> too_old now gm = true ->
  game_of (cleanup_loop now ks w) k = Some (ended_game gm).
Proof.
  revert w. induction ks as [|k' ks IH]; intros w H Ho; cbn [cleanup_loop]; [exact H|].
  apply IH; [|exact Ho].
  destruct (String.eqb_spec k' k) as [->|Hne].
  - rewrite H. fold (too_old now (ended_game gm)).
    replace (too_old now (ended_game gm)) with (too_old now gm) by reflexivity. rewrite Ho.
    rewrite (endGame_game w k _ H). rewrite ended_game_idem. reflexivity.
  - destruct (game_of w k'); [destruct (_ >? _)|]; try exact H.
    rewrite endGame_frame by exact Hne. exact H.
Qed.

Lemma cleanup_loop_ends now ks w k gm :
  game_of w k = Some gm -> too_old now gm = true -> In k ks ->
  game_of (cleanup_loop now ks w) k = Some (ended_game gm).
Proof.
  revert w. induction ks as [|k' ks IH]; intros w H Ho Hin; [destruct Hin|].
  cbn [cleanup_loop].
  destruct (String.eqb_spec k' k) as [->|Hne].
  - apply cleanup_loop_ended; [|exact Ho].
    rewrite H. fold (too_old now gm). rewrite Ho. apply endGame_game. exact H.
  - destruct Hin as [Heq|Hin]; [contradiction|]. apply IH; [|exact Ho|exact Hin].
    destruct (game_of w k'); [destruct (_ >? _)|]; try exact H.
    rewrite endGame_frame by exact Hne. exact H.
Qed.

(** X9.  [cleanupOldGames] at time [now] ends (Completed, Ended) every
    stored match created more than 30 minutes (1800000 ms) before [now],
    whatever its status, including matches it had ended already, and leaves
    every younger match unchanged. *)
Theorem X9_cleanup_ends_old_matches (w : World) (now : Z) (k : string) (gm : Game) :
  game_of w k = Some gm ->
  (now - createdAt gm > 1800000 -> game_of (cleanupOldGames now w) k = Some (ended_game gm)) /\
  (now - createdAt gm <= 1800000 -> game_of (cleanupOldGames now w) k = Some gm).
Proof.
  intros H. unfold cleanupOldGames. split.
  - intros Hold. apply cleanup_loop_ends; [exact H| |exact (map_get_in_keys k gm (games w) H)].
    unfold too_old. apply Z.gtb_lt. lia.
  - intros Hyoung. apply cleanup_loop_keep; [exact H|].
    unfold too_old. rewrite Z.gtb_ltb. apply Z.ltb_ge. lia.
Qed.

Lemma X9_cleanup_ends_old_matches_witness :
  game_of w_play gidA = Some game_play /\
  game_of (cleanupOldGames 1801001 w_play) gidA = Some (ended_game game_play).
Proof.
  assert (H : game_of w_play gidA = Some game_play) by (vm_compute; reflexivity).
  split; [exact H|].
  apply (proj1 (X9_cleanup_ends_old_matches w_play 1801001 gidA game_play H)).
  vm_compute. reflexivity.
Defined.

(** ** The 'join-game' handler *)

(** X10.  In a reachable state the 'join-game' handler either changes
    nothing, or all of its checks passed: the match exists, is Waiting, has
    no (truthy) opponent, the joiner is not its creator and not empty, the
    bet is non-zero and equal to the match's bet, and the funds check
    succeeded.  In that case the match gets the joiner as opponent and
    status InProgress, and the only live interval of the match is a fresh
    10-second placement timer. *)
Theorem X10_join_handler (w : World) (gid pid : string) (bet : Z) (ok : bool) :
  reachable w ->
  on_join gid pid bet ok w = w \/
  exists gm, game_of w gid = Some gm /\ status gm = Waiting /\
    truthy_str (opponent gm) = false /\
    creator gm <> pid /\ pid <> ""%string /\ bet <> 0 /\ bet = betAmount gm /\ ok = true /\
    game_of (on_join gid pid bet ok w) gid =
      Some (set_status InProgress (set_opponent (Some pid) gm)) /\
    filter (fun iv => String.eqb (iv_game iv) gid) (live (on_join gid pid bet ok w)) =
      [mkIv (next_iv w) gid 10 OnPlacement].
Proof.
  intros Hr. pose proof (reachable_TimerInv w Hr) as Hinv. unfold on_join.
  destruct (game_of w gid) as [gm|] eqn:Hg; [|left; reflexivity].
  destruct (status gm) eqn:Hs; try (left; reflexivity).
  destruct (truthy_str (opponent gm)) eqn:Ho; [left; reflexivity|].
  destruct (String.eqb (creator gm) pid) eqn:Hc; [left; reflexivity|].
  destruct (String.eqb pid "") eqn:He; [left; reflexivity|].
  destruct ((bet =? 0) || negb (bet =? betAmount gm)) eqn:Hb; [left; reflexivity|].
  destruct ok; [|left; reflexivity]. right.
  set (gm' := set_status InProgress (set_opponent (Some pid) gm)).
  assert (Hj : joinGame gid pid w = (inr gm', put_game gid gm' w)).
  { unfold joinGame, bind, lookup_game, modify, ret, throw. cbv beta.
    rewrite Hg, Ho, Hc. reflexivity. }
  rewrite Hj. unfold startGame. rewrite game_of_put_game. cbn [negb].
  apply orb_false_iff in Hb as [Hb0 Hb1]. apply negb_false_iff, Z.eqb_eq in Hb1.
  apply Z.eqb_neq in Hb0.
  exists gm. split; [reflexivity|]. split; [exact Hs|]. split; [exact Ho|].
  split; [apply String.eqb_neq; exact Hc|]. split; [apply String.eqb_neq; exact He|].
  split; [exact Hb0|]. split; [exact Hb1|]. split; [reflexivity|].
  split; [rewrite game_of_startTimer; apply game_of_put_game|].
  rewrite startTimer_only by (apply TimerInv_put_game; exact Hinv). reflexivity.
Qed.

Definition w_created : World :=
  run init_world [EvCreate dataA "0.abcdefghijklm" "0.nopqrstuvwxy" 1000].

Lemma X10_join_handler_witness :
  reachable w_created /\
  (on_join gidA "bob" 1 true w_created = w_created \/
   exists gm, game_of w_created gidA = Some gm /\ status gm = Waiting /\
    truthy_str (opponent gm) = false /\
    creator gm <> "bob"%string /\ "bob"%string <> ""%string /\ 1 <> 0 /\ 1 = betAmount gm /\
    true = true /\
    game_of (on_join gidA "bob" 1 true w_created) gidA =
      Some (set_status InProgress (set_opponent (Some "bob"%string) gm)) /\
    filter (fun iv => String.eqb (iv_game iv) gidA) (live (on_join gidA "bob" 1 true w_created)) =
      [mkIv (next_iv w_created) gidA 10 OnPlacement]).
Proof.
  assert (Hr : reachable w_created) by (eexists; unfold w_created; reflexivity).
  split; [exact Hr|]. exact (X10_join_handler w_created gidA "bob" 1 true Hr).
Defined.

(** ** Confirming a placement *)

Definition gameplay_game (gm : Game) (bp : list (string * Grid)) : Game :=
  set_state (set_current (Some (creator gm)) (set_timeLeft 5 (set_phase Gameplay (state gm))))
    (set_ready true (set_placements bp gm)).

Lemma confirm_second w g p grid gm :
  TimerInv w -> game_of w g = Some gm ->
  List.length (map_set p grid (bombPlacements gm)) = 2%nat ->
  game_of (confirmBombPlacement g p grid w) g =
    Some (gameplay_game gm (map_set p grid (bombPlacements gm))) /\
  filter (fun iv => String.eqb (iv_game iv) g) (live (confirmBombPlacement g p grid w)) =
    [mkIv (next_iv w) g 5 OnRound] /\
  next_iv (confirmBombPlacement g p grid w) = S (next_iv w).
Proof.
  intros Hinv Hg Hl. unfold confirmBombPlacement. rewrite Hg. cbv zeta. rewrite Hl.
  cbn [Nat.eqb]. set (bp := map_set p grid (bombPlacements gm)).
  set (w2 := update_game g (set_ready true) (put_game g (set_placements bp gm) w)).
  assert (Hw2 : game_of (clearTimer g w2) g = Some (set_ready true (set_placements bp gm))).
  { rewrite game_of_clearTimer. unfold w2. apply game_of_update_game_eq. apply game_of_put_game. }
  assert (Hinv2 : TimerInv (put_game g (set_state
            (set_current (Some (creator (set_ready true (set_placements bp gm))))
               (set_timeLeft 5 (set_phase Gameplay (state (set_ready true (set_placements bp gm))))))
            (set_ready true (set_placements bp gm))) (clearTimer g w2))).
  { apply TimerInv_put_game, TimerInv_clearTimer. unfold w2.
    apply TimerInv_update_game, TimerInv_put_game. exact Hinv. }
  unfold startGameplayPhase. rewrite Hw2. split; [|split].
  - rewrite game_of_startTimer, game_of_put_game. reflexivity.
  - rewrite startTimer_only by exact Hinv2. rewrite next_iv_put_game, clearTimer_next.
    unfold w2, update_game. rewrite game_of_put_game. reflexivity.
  - unfold startTimer. cbn [next_iv]. rewrite clearTimer_next, next_iv_put_game, clearTimer_next.
    unfold w2, update_game. rewrite game_of_put_game. reflexivity.
Qed.


Definition w_joined : World :=
  run init_world
    [ EvCreate dataA "0.abcdefghijklm" "0.nopqrstuvwxy" 1000; EvJoin gidA "bob" 1 true ].


(** ** Automatic bomb placement *)

(** [grid[x][y]], reading [undefined] as [None]. *)
Definition cell (grid : Grid) (x y : nat) : option Z :=
  match nth_error grid x with Some row => nth_error row y | None => None end.

(** The number of cells holding [1], the bombs of a grid. *)
Definition count_ones (grid : Grid) : nat :=
  List.length (filter (fun v => Z.eqb v 1) (List.concat grid)).

(** [n] rows of [n] cells, each [0] or [1]. *)
Definition shaped (n : nat) (grid : Grid) : Prop :=
  List.length grid = n /\ Forall (fun row => List.length row = n) grid /\
  Forall (Forall (fun v => v = 0 \/ v = 1)) grid.

Lemma nth_error_list_update_neq {A} (i j : nat) (f : A -> A) (l : list A) :
  i <> j -> nth_error (list_update i f l) j = nth_error l j.
Proof.
  revert i j. induction l as [|a l IH]; intros [|i] [|j] H; cbn; try reflexivity.
  - contradiction.
  - apply IH. congruence.
Qed.

Lemma nth_error_list_update_same {A} (i : nat) (f : A -> A) (l : list A) :
  nth_error (list_update i f l) i = option_map f (nth_error l i).
Proof.
  revert i. induction l as [|a l IH]; intros [|i]; cbn; try reflexivity. apply IH.
Qed.

Lemma length_list_update {A} (i : nat) (f : A -> A) (l : list A) :
  List.length (list_update i f l) = List.length l.
Proof.
  revert i. induction l as [|a l IH]; intros [|i]; cbn; try reflexivity. rewrite IH. reflexivity.
Qed.

Lemma Forall_list_update {A} (P : A -> Prop) (i : nat) (f : A -> A) (l : list A) :
  (forall a, P a -> P (f a)) -> Forall P l -> Forall P (list_update i f l).
Proof.
  intros Hf. revert i. induction l as [|a l IH]; intros [|i] Hl; cbn; [constructor|constructor|..];
    inversion Hl; subst; constructor; auto.
Qed.

Lemma cell_set_other grid x y x' y' :
  (x', y') <> (x, y) ->
  cell (list_update x (list_update y (fun _ => 1)) grid) x' y' = cell grid x' y'.
Proof.
  intros Hne. unfold cell. destruct (Nat.eq_dec x x') as [<-|Hx].
  - rewrite nth_error_list_update_same. destruct (nth_error grid x) as [row|]; [|reflexivity].
    cbn [option_map]. apply nth_error_list_update_neq. congruence.
  - rewrite nth_error_list_update_neq by exact Hx. reflexivity.
Qed.

Lemma count_row_set (row : list Z) (y : nat) :
  nth_error row y = Some 0 ->
  List.length (filter (fun v => Z.eqb v 1) (list_update y (fun _ => 1) row)) =
  S (List.length (filter (fun v => Z.eqb v 1) row)).
Proof.
  revert y. induction row as [|v row IH]; intros [|y] H; cbn in H; try discriminate.
  - injection H as ->. reflexivity.
  - cbn [list_update filter]. destruct (Z.eqb v 1); cbn [List.length]; rewrite (IH y H); reflexivity.
Qed.

Lemma count_ones_set grid x y :
  cell grid x y = Some 0 ->
  count_ones (list_update x (list_update y (fun _ => 1)) grid) = S (count_ones grid).
Proof.
  unfold count_ones, cell. revert x. induction grid as [|row grid IH]; intros [|x] H;
    cbn in H; try discriminate; cbn [list_update List.concat]; rewrite !filter_app, !length_app.
  - rewrite (count_row_set row y H). reflexivity.
  - rewrite (IH x H). lia.
Qed.

Lemma shaped_set n grid x y :
  shaped n grid -> shaped n (list_update x (list_update y (fun _ => 1)) grid).
Proof.
  intros (H1 & H2 & H3). split; [|split].
  - rewrite length_list_update. exact H1.
  - apply Forall_list_update; [|exact H2]. intros row Hr. rewrite length_list_update. exact Hr.
  - apply Forall_list_update; [|exact H3]. intros row Hr.
    apply Forall_list_update; [|exact Hr]. intros _ _. right. reflexivity.
Qed.

Lemma split_at {A} (l1 l2 : list A) (a : A) :
  firstn (List.length l1) (l1 ++ a :: l2) = l1 /\
  skipn (S (List.length l1)) (l1 ++ a :: l2) = l2.
Proof.
  induction l1 as [|b l1 IH]; cbn; [split; reflexivity|].
  destruct IH as [IH1 IH2]. rewrite IH1. split; [reflexivity|exact IH2].
Qed.

Lemma pick_bombs_count n k ds pos grid :
  shaped n grid -> NoDup pos ->
  (forall x y, In (x, y) pos -> cell grid x y = Some 0) ->
  shaped n (fst (pick_bombs k ds pos grid)) /\
  count_ones (fst (pick_bombs k ds pos grid)) = (count_ones grid + Nat.min k (List.length pos))%nat.
Proof.
  revert ds pos grid. induction k as [|k IH]; intros ds pos grid Hs Hnd Hc.
  - cbn [pick_bombs fst]. split; [exact Hs|lia].
  - destruct pos as [|a rest].
    + cbn [pick_bombs]. destruct (IH ds [] grid Hs Hnd Hc) as [H1 H2].
      split; [exact H1|]. rewrite H2. cbn [List.length]. lia.
    + cbn [pick_bombs]. set (pos := a :: rest) in *.
      assert (Hlen : (0 < List.length pos)%nat) by (cbn; lia).
      destruct (match ds with d :: ds0 => (d, ds0) | [] => (0%nat, []) end) as [d ds'].
      set (idx := Nat.modulo d (List.length pos)).
      assert (Hidx : (idx < List.length pos)%nat) by (apply Nat.mod_upper_bound; lia).
      destruct (nth_error pos idx) as [[x y]|] eqn:En;
        [|apply nth_error_None in En; lia].
      rewrite (nth_error_nth pos idx (0%nat, 0%nat) En).
      destruct (nth_error_split pos idx En) as (l1 & l2 & Hsplit & Hl1).
      assert (Hf : firstn idx pos = l1) by (rewrite Hsplit, <- Hl1; apply split_at).
      assert (Hk : skipn (S idx) pos = l2) by (rewrite Hsplit, <- Hl1; apply split_at).
      rewrite Hf, Hk.
      assert (Hnd' : NoDup (l1 ++ l2)) by (rewrite Hsplit in Hnd; exact (NoDup_remove_1 _ _ _ Hnd)).
      assert (Hnot : ~ In (x, y) (l1 ++ l2))
        by (rewrite Hsplit in Hnd; exact (NoDup_remove_2 _ _ _ Hnd)).
      assert (Hxy : cell grid x y = Some 0)
        by (apply Hc; rewrite Hsplit; apply in_or_app; right; left; reflexivity).
      destruct (IH ds' (l1 ++ l2) (list_update x (list_update y (fun _ => 1)) grid)) as [H1 H2].
      * apply shaped_set. exact Hs.
      * exact Hnd'.
      * intros x' y' Hin. rewrite cell_set_other.
        -- apply Hc. rewrite Hsplit. apply in_app_or in Hin as [Hin|Hin]; apply in_or_app;
             [left; exact Hin | right; right; exact Hin].
        -- intros Heq. rewrite Heq in Hin. contradiction.
      * split; [exact H1|]. rewrite H2, count_ones_set by exact Hxy.
        assert (Hl : List.length pos = S (List.length (l1 ++ l2)))
          by (rewrite Hsplit, !length_app; cbn; lia).
        rewrite Hl. cbn [Nat.min]. lia.
Qed.

Lemma positions_In n x y : In (x, y) (positions n) <-> (x < n)%nat /\ (y < n)%nat.
Proof.
  unfold positions. rewrite in_flat_map. split.
  - intros (x' & Hx & Hin). apply in_map_iff in Hin as (y' & Heq & Hy).
    injection Heq as -> ->. apply in_seq in Hx, Hy. lia.
  - intros [Hx Hy]. exists x. split; [apply in_seq; lia|].
    apply in_map_iff. exists y. split; [reflexivity|apply in_seq; lia].
Qed.

Lemma NoDup_pairs (x : nat) (ys : list nat) :
  NoDup ys -> NoDup (map (fun y => (x, y)) ys).
Proof.
  induction ys as [|y ys IH]; intros Hnd; cbn [map]; [constructor|].
  inversion Hnd as [|? ? Hy Hys]; subst. constructor; [|exact (IH Hys)].
  intros Hin. apply in_map_iff in Hin as (y' & Heq & Hin). injection Heq as ->. contradiction.
Qed.

Lemma pairs_NoDup (xs ys : list nat) :
  NoDup xs -> NoDup ys -> NoDup (flat_map (fun x => map (fun y => (x, y)) ys) xs).
Proof.
  intros Hs Hys. induction xs as [|x xs IH]; cbn [flat_map]; [constructor|].
  inversion Hs as [|? ? Hx Hxs]; subst. apply NoDup_app.
  - apply NoDup_pairs. exact Hys.
  - exact (IH Hxs).
  - intros [a b] Hin Hin'. apply in_map_iff in Hin as (y & Heq & _). injection Heq as <- _.
    apply in_flat_map in Hin' as (x' & Hx' & Hin'). apply in_map_iff in Hin' as (y' & Heq & _).
    injection Heq as -> _. contradiction.
Qed.

Lemma positions_NoDup n : NoDup (positions n).
Proof. apply pairs_NoDup; apply seq_NoDup. Qed.

Lemma pairs_length (xs ys : list nat) :
  List.length (flat_map (fun x => map (fun y => (x, y)) ys) xs) =
  (List.length xs * List.length ys)%nat.
Proof.
  induction xs as [|x xs IH]; cbn [flat_map List.length]; [reflexivity|].
  rewrite length_app, length_map, IH. reflexivity.
Qed.

Lemma positions_length n : List.length (positions n) = (n * n)%nat.
Proof. unfold positions. rewrite pairs_length, length_seq. reflexivity. Qed.

Lemma zeros_shaped n : shaped n (repeat (repeat 0 n) n).
Proof.
  split; [apply repeat_length|]. split.
  - apply Forall_forall. intros row Hin. apply repeat_spec in Hin. subst. apply repeat_length.
  - apply Forall_forall. intros row Hin. apply repeat_spec in Hin. subst.
    apply Forall_forall. intros v Hv. apply repeat_spec in Hv. left. exact Hv.
Qed.

Lemma zeros_row_filter m : filter (fun v => Z.eqb v 1) (repeat 0 m) = [].
Proof. induction m as [|m IHm]; [reflexivity|cbn [repeat filter]; exact IHm]. Qed.

Lemma zeros_count n m : count_ones (repeat (repeat 0 m) n) = 0%nat.
Proof.
  unfold count_ones. induction n as [|n IH]; [reflexivity|].
  cbn [repeat List.concat]. rewrite filter_app, length_app, IH, zeros_row_filter.
  reflexivity.
Qed.

Lemma zeros_cell n x y : (x < n)%nat -> (y < n)%nat -> cell (repeat (repeat 0 n) n) x y = Some 0.
Proof.
  intros Hx Hy. unfold cell. rewrite nth_error_repeat by exact Hx. apply nth_error_repeat. exact Hy.
Qed.

(** A grid drawn by [autoPlaceBombs] for a board of size [n] and [k] bombs. *)
Lemma generated_grid n k ds :
  let grid := fst (pick_bombs k ds (positions n) (repeat (repeat 0 n) n)) in
  shaped n grid /\ count_ones grid = Nat.min k (n * n).
Proof.
  cbv zeta. destruct (pick_bombs_count n k ds (positions n) (repeat (repeat 0 n) n)) as [H1 H2].
  - apply zeros_shaped.
  - apply positions_NoDup.
  - intros x y Hin. apply positions_In in Hin as [Hx Hy]. apply zeros_cell; assumption.
  - split; [exact H1|]. rewrite H2, zeros_count, positions_length. reflexivity.
Qed.

Lemma place_missing_spec n nb players ds bp :
  (forall q gr, map_get q bp = Some gr -> map_get q (place_missing n nb players ds bp) = Some gr) /\
  (forall q, In q players -> exists gr, map_get q (place_missing n nb players ds bp) = Some gr) /\
  (forall q gr, map_get q (place_missing n nb players ds bp) = Some gr -> map_get q bp = None ->
     In q players /\ shaped n gr /\ count_ones gr = Nat.min (Z.to_nat nb) (n * n)).
Proof.
  revert ds bp. induction players as [|p ps IH]; intros ds bp; cbn [place_missing].
  - split; [auto|]. split; [intros q []|]. intros q gr H H'. congruence.
  - destruct (map_get p bp) as [gp|] eqn:Ep.
    + destruct (IH ds bp) as (Ha & Hb & Hc). split; [exact Ha|]. split.
      * intros q [<-|Hq]; [exists gp; apply Ha; exact Ep | apply Hb; exact Hq].
      * intros q gr H H'. destruct (Hc q gr H H') as (Hq & Hr). split; [right; exact Hq|exact Hr].
    + destruct (pick_bombs (Z.to_nat nb) ds (positions n) (repeat (repeat 0 n) n))
        as [grid ds'] eqn:Eg.
      pose proof (generated_grid n (Z.to_nat nb) ds) as Hgood. rewrite Eg in Hgood. cbn [fst] in Hgood.
      destruct (IH ds' (map_set p grid bp)) as (Ha & Hb & Hc). split; [|split].
      * intros q gr H. apply Ha. rewrite map_get_set_neq; [exact H|congruence].
      * intros q [<-|Hq]; [exists grid; apply Ha; apply map_get_set_eq | apply Hb; exact Hq].
      * intros q gr H H'. destruct (String.eqb_spec p q) as [<-|Hne].
        -- rewrite (Ha p grid (map_get_set_eq p grid bp)) in H. injection H as <-.
           split; [left; reflexivity|exact Hgood].
        -- destruct (Hc q gr H) as (Hq & Hr); [rewrite map_get_set_neq by exact Hne; exact H'|].
           split; [right; exact Hq|exact Hr].
Qed.

Lemma autoPlaceBombs_spec w g d gm n :
  game_of w g = Some gm -> parse_size (size gm) = Some n ->
  exists bp, game_of (autoPlaceBombs g d w) g = Some (set_ready true (set_placements bp gm)) /\
    (forall q gr, map_get q (bombPlacements gm) = Some gr -> map_get q bp = Some gr) /\
    (creator gm <> ""%string -> exists gr, map_get (creator gm) bp = Some gr) /\
    (forall o, opponent gm = Some o -> o <> ""%string -> exists gr, map_get o bp = Some gr) /\
    (forall q gr, map_get q bp = Some gr -> map_get q (bombPlacements gm) = None ->
       (q = creator gm \/ opponent gm = Some q) /\
       shaped n gr /\ count_ones gr = Nat.min (Z.to_nat (bombs gm)) (n * n)).
Proof.
  intros Hg Hn. unfold autoPlaceBombs. rewrite Hg, Hn. cbv zeta.
  set (players := filter (fun p => negb (String.eqb p "")) (creator gm ::
                    match opponent gm with Some o => [o] | None => [] end)).
  destruct (place_missing_spec n (bombs gm) players d (bombPlacements gm)) as (Ha & Hb & Hc).
  eexists. split; [apply game_of_put_game|]. split; [exact Ha|]. split; [|split].
  - intros Hne. apply Hb. unfold players. apply filter_In. split; [left; reflexivity|].
    apply negb_true_iff, String.eqb_neq. exact Hne.
  - intros o Ho Hne. apply Hb. unfold players. rewrite Ho. apply filter_In.
    split; [right; left; reflexivity|]. apply negb_true_iff, String.eqb_neq. exact Hne.
  - intros q gr H H'. destruct (Hc q gr H H') as (Hq & Hr). split; [|exact Hr].
    unfold players in Hq. apply filter_In in Hq as (Hq & _).
    destruct Hq as [<-|Hq]; [left; reflexivity|]. right.
    destruct (opponent gm) as [o|]; [destruct Hq as [<-|[]]; reflexivity | destruct Hq].
Qed.

(** X12.  [autoPlaceBombs] on a stored match of board size [n] marks it
    ready and keeps every bomb grid already placed; the creator and the
    opponent, when non-empty, each end up with a grid; and every grid it
    adds belongs to one of them and is [n] rows of [n] cells, each 0 or 1,
    with exactly min(bombs, n * n) cells equal to 1 (none when the bomb
    count is not positive), whatever the random draws. *)
Theorem X12_autoPlaceBombs (w : World) (g : string) (d : list nat) (gm : Game) (n : nat) :
  game_of w g = Some gm -> parse_size (size gm) = Some n ->
  exists bp, game_of (autoPlaceBombs g d w) g = Some (set_ready true (set_placements bp gm)) /\
    (forall q gr, map_get q (bombPlacements gm) = Some gr -> map_get q bp = Some gr) /\
    (creator gm <> ""%string -> exists gr, map_get (creator gm) bp = Some gr) /\
    (forall o, opponent gm = Some o -> o <> ""%string -> exists gr, map_get o bp = Some gr) /\
    (forall q gr, map_get q bp = Some gr -> map_get q (bombPlacements gm) = None ->
       (q = creator gm \/ opponent gm = Some q) /\
       List.length gr = n /\ Forall (fun row => List.length row = n) gr /\
       Forall (Forall (fun v => v = 0 \/ v = 1)) gr /\
       count_ones gr = Nat.min (Z.to_nat (bombs gm)) (n * n)).
Proof.
  intros Hg Hn. destruct (autoPlaceBombs_spec w g d gm n Hg Hn) as (bp & H1 & H2 & H3 & H4 & H5).
  exists bp. split; [exact H1|]. split; [exact H2|]. split; [exact H3|]. split; [exact H4|].
  intros q gr H H'. destruct (H5 q gr H H') as (Hq & (Ha & Hb & Hc) & Hd). auto.
Qed.

Lemma X12_autoPlaceBombs_witness :
  game_of w_joined gidA = Some (get_or_dummy (game_of w_joined gidA)) /\
  parse_size (size (get_or_dummy (game_of w_joined gidA))) = Some 5%nat /\
  exists bp, game_of (autoPlaceBombs gidA [4; 17; 9]%nat w_joined) gidA =
    Some (set_ready true (set_placements bp (get_or_dummy (game_of w_joined gidA)))).
Proof.
  assert (Hg : game_of w_joined gidA = Some (get_or_dummy (game_of w_joined gidA)))
    by (vm_compute; reflexivity).
  assert (Hn : parse_size (size (get_or_dummy (game_of w_joined gidA))) = Some 5%nat)
    by (vm_compute; reflexivity).
  split; [exact Hg|]. split; [exact Hn|].
  destruct (X12_autoPlaceBombs w_joined gidA [4; 17; 9]%nat _ 5 Hg Hn) as (bp & H & _).
  exists bp. exact H.
Defined.

(** ** The placement timer running out *)

(** X13.  In a reachable state, when the live placement interval of a
    stored match fires with one second left, the match gets bomb grids for
    its creator and opponent (when non-empty) and is marked ready, and then
    enters the Gameplay phase with the creator to move and 5 seconds on the
    clock, its status unchanged; the only live interval of the match is
    then a 5-second round timer. *)
Theorem X13_placement_timeout (w : World) (iv : Interval) (gm : Game) (n : nat) (d : list nat) :
  reachable w -> In iv (live w) -> iv_cb iv = OnPlacement -> iv_left iv = 1 ->
  game_of w (iv_game iv) = Some gm -> parse_size (size gm) = Some n ->
  let g := iv_game iv in
  let w' := tick (iv_id iv) d w in
  exists gm', game_of w' g = Some gm' /\
    phase (state gm') = Gameplay /\ currentPlayer (state gm') = Some (creator gm) /\
    timeLeft (state gm') = 5 /\ bothPlayersReady gm' = true /\ status gm' = status gm /\
    (creator gm <> ""%string -> exists gr, map_get (creator gm) (bombPlacements gm') = Some gr) /\
    (forall o, opponent gm = Some o -> o <> ""%string ->
       exists gr, map_get o (bombPlacements gm') = Some gr) /\
    exists t, filter (fun iv' => String.eqb (iv_game iv') g) (live w') = [mkIv t g 5 OnRound].
Proof.
  intros Hr Hin Hcb Hleft Hg Hn g w'. pose proof (reachable_TimerInv w Hr) as Hinv.
  destruct (tick_core_present w iv gm Hinv Hin Hg) as (H1 & H2 & _).
  rewrite Hleft in H1, H2. cbn [Z.sub] in H1, H2. destruct (H2 ltac:(lia)) as [Hsnd _].
  pose proof (TimerInv_tick_core (iv_id iv) w Hinv) as Hinv1.
  unfold w', tick. destruct (tick_core (iv_id iv) w) as [w1 o]. cbn [fst snd] in *.
  subst o. rewrite Hcb. cbn [run_cb]. fold g in H1 |- *.
  set (gm1 := set_state (set_timeLeft 0 (state gm)) gm) in H1.
  destruct (autoPlaceBombs_spec w1 g d gm1 n H1 Hn) as (bp & Ha & _ & Hc & Ho & _).
  set (w2 := autoPlaceBombs g d w1) in *.
  assert (Hinv2 : TimerInv w2) by (apply TimerInv_autoPlaceBombs; exact Hinv1).
  unfold startGameplayPhase. rewrite Ha.
  eexists. split; [rewrite game_of_startTimer; apply game_of_put_game|].
  cbn [state set_state set_ready set_placements phase currentPlayer timeLeft bothPlayersReady
       status bombPlacements set_current set_timeLeft set_phase creator opponent gm1].
  split; [reflexivity|]. split; [reflexivity|]. split; [reflexivity|].
  split; [reflexivity|]. split; [reflexivity|]. split; [exact Hc|]. split; [exact Ho|].
  eexists. apply startTimer_only. apply TimerInv_put_game. exact Hinv2.
Qed.

Definition w_placing : World := run w_joined [EvTick 0 []; EvTick 0 []; EvTick 0 [];
  EvTick 0 []; EvTick 0 []; EvTick 0 []; EvTick 0 []; EvTick 0 []; EvTick 0 []].

Lemma X13_placement_timeout_witness :
  reachable w_placing /\ In (mkIv 0 gidA 1 OnPlacement) (live w_placing) /\
  game_of w_placing gidA = Some (get_or_dummy (game_of w_placing gidA)) /\
  parse_size (size (get_or_dummy (game_of w_placing gidA))) = Some 5%nat /\
  phase_of (tick 0 [1; 2; 3; 4; 5; 6]%nat w_placing) gidA = Some Gameplay.
Proof.
  assert (Hr : reachable w_placing)
    by (exists ([EvCreate dataA "0.abcdefghijklm" "0.nopqrstuvwxy" 1000; EvJoin gidA "bob" 1 true]
                ++ repeat (EvTick 0 []) 9); unfold w_placing, w_joined, run;
        rewrite fold_left_app; reflexivity).
  assert (Hin : In (mkIv 0 gidA 1 OnPlacement) (live w_placing)) by (vm_compute; left; reflexivity).
  assert (Hg : game_of w_placing gidA = Some (get_or_dummy (game_of w_placing gidA)))
    by (vm_compute; reflexivity).
  assert (Hn : parse_size (size (get_or_dummy (game_of w_placing gidA))) = Some 5%nat)
    by (vm_compute; reflexivity).
  split; [exact Hr|]. split; [exact Hin|]. split; [exact Hg|]. split; [exact Hn|].
  destruct (X13_placement_timeout w_placing (mkIv 0 gidA 1 OnPlacement) _ 5
              [1; 2; 3; 4; 5; 6]%nat Hr Hin eq_refl eq_refl Hg Hn) as (gm' & Hgm & Hph & _).
  unfold phase_of. cbn [iv_game iv_id] in Hgm. rewrite Hgm. cbn [option_map]. rewrite Hph.
  reflexivity.
Defined.

(** ** The registry invariant *)

(** What every entry [(k, gm)] of [this.games] satisfies. *)
Definition EntryOK (k : string) (gm : Game) : Prop :=
  id gm = k /\
  (status gm = Waiting -> opponent gm = None) /\
  List.length (revealedFields (state gm)) = grid_size_of gm /\
  Forall (fun row => (grid_size_of gm <= List.length row)%nat) (revealedFields (state gm)).

(** ... and the registry holds each key once. *)
Definition GameInv (w : World) : Prop :=
  (forall k gm, In (k, gm) (games w) -> EntryOK k gm) /\ NoDup (map fst (games w)).

Lemma EntryOK_same k gm gm' :
  id gm' = id gm -> size gm' = size gm ->
  revealedFields (state gm') = revealedFields (state gm) ->
  (status gm' = Waiting -> status gm = Waiting /\ opponent gm' = opponent gm) ->
  EntryOK k gm -> EntryOK k gm'.
Proof.
  intros Hi Hs Hr Hw (H1 & H2 & H3 & H4). unfold EntryOK, grid_size_of in *.
  rewrite Hi, Hs, Hr. split; [exact H1|]. split; [|split; assumption].
  intros Hw'. destruct (Hw Hw') as [Hw1 Ho]. rewrite Ho. exact (H2 Hw1).
Qed.

Ltac entry_same :=
  let k := fresh "k" in let gm := fresh "gm" in let H := fresh "H" in
  intros k gm H; apply (EntryOK_same k gm); [reflexivity|reflexivity|reflexivity| |exact H];
  cbn; let Hw := fresh "Hw" in
  intros Hw; first [split; [exact Hw|reflexivity] | discriminate].

Lemma EntryOK_set_ready k b gm : EntryOK k gm -> EntryOK k (set_ready b gm).
Proof. revert k gm. entry_same. Qed.

Lemma EntryOK_set_placements k bp gm : EntryOK k gm -> EntryOK k (set_placements bp gm).
Proof. revert k gm. entry_same. Qed.

Lemma EntryOK_switch_turn k o gm : EntryOK k gm -> EntryOK k (switch_turn o gm).
Proof. revert k gm. entry_same. Qed.

Lemma EntryOK_gameplay k gm :
  EntryOK k gm ->
  EntryOK k (set_state (set_current (Some (creator gm))
                          (set_timeLeft 5 (set_phase Gameplay (state gm)))) gm).
Proof. revert k gm. entry_same. Qed.

Lemma EntryOK_timeLeft k t gm : EntryOK k gm -> EntryOK k (set_state (set_timeLeft t (state gm)) gm).
Proof. revert k gm. entry_same. Qed.

Lemma EntryOK_join k o gm : EntryOK k gm -> EntryOK k (set_status InProgress (set_opponent o gm)).
Proof. revert k gm. entry_same. Qed.

Lemma EntryOK_end k gm :
  EntryOK k gm -> EntryOK k (set_state (set_phase Ended (state gm)) (set_status Completed gm)).
Proof. revert k gm. entry_same. Qed.

Lemma js_set_length_ge {A} (y : nat) (v : A) (row : list (option A)) :
  (List.length row <= List.length (js_set y v row))%nat.
Proof.
  revert y. induction row as [|a row IH]; intros [|y]; cbn [js_set List.length]; try lia.
  specialize (IH y). lia.
Qed.

Lemma EntryOK_mark_revealed k x y gm : EntryOK k gm -> EntryOK k (mark_revealed x y gm).
Proof.
  intros (H1 & H2 & H3 & H4). unfold EntryOK, mark_revealed, grid_size_of in *. cbn.
  split; [exact H1|]. split; [exact H2|]. split.
  - rewrite length_list_update. exact H3.
  - apply Forall_list_update; [|exact H4]. intros row Hr. pose proof (js_set_length_ge y true row). lia.
Qed.

Lemma map_set_In_inv {V} (k k' : string) (v v' : V) (m : list (string * V)) :
  In (k', v') (map_set k v m) -> In (k', v') m \/ (k' = k /\ v' = v).
Proof.
  induction m as [|[k0 v0] m IH]; cbn [map_set].
  - intros [H|[]]. injection H as -> ->. right. split; reflexivity.
  - destruct (String.eqb_spec k k0) as [->|Hne].
    + intros [H|H]; [injection H as -> ->; right; split; reflexivity | left; right; exact H].
    + intros [H|H]; [left; left; exact H|]. destruct (IH H) as [H'|H']; [left; right; exact H'|].
      right. exact H'.
Qed.

Lemma map_get_In_pair {V} (k : string) (v : V) (m : list (string * V)) :
  map_get k m = Some v -> In (k, v) m.
Proof.
  induction m as [|[k' v'] m IH]; cbn; [discriminate|].
  destruct (String.eqb_spec k k') as [->|_]; [intros H; injection H as ->; left; reflexivity|].
  intros H. right. exact (IH H).
Qed.

Lemma GameInv_entry w g gm : GameInv w -> game_of w g = Some gm -> EntryOK g gm.
Proof. intros H Hg. apply (proj1 H). apply map_get_In_pair. exact Hg. Qed.

Lemma map_set_NoDup_keys {V} (k : string) (v : V) (m : list (string * V)) :
  NoDup (map fst m) -> NoDup (map fst (map_set k v m)).
Proof.
  induction m as [|[k' v'] m IH]; cbn [map_set map fst]; intros Hnd; [repeat constructor; intros []|].
  inversion Hnd as [|? ? Hk' Hm]; subst.
  destruct (String.eqb k k') eqn:E; cbn [map fst]; [constructor; assumption|].
  constructor; [|exact (IH Hm)]. intros Hin. apply in_map_iff in Hin as ([k0 v0] & Heq & Hin).
  cbn [fst] in Heq. subst k0. apply map_set_In_inv in Hin as [Hin|[Heq _]].
  - apply Hk'. apply (in_map fst) in Hin. exact Hin.
  - subst k'. rewrite String.eqb_refl in E. discriminate.
Qed.

Lemma map_delete_NoDup_keys {V} (k : string) (m : list (string * V)) :
  NoDup (map fst m) -> NoDup (map fst (map_delete k m)).
Proof.
  unfold map_delete. induction m as [|[k' v'] m IH]; cbn [filter map fst]; intros Hnd; [constructor|].
  inversion Hnd as [|? ? Hk' Hm]; subst.
  destruct (negb (String.eqb k k')); cbn [map fst]; [|exact (IH Hm)].
  constructor; [|exact (IH Hm)]. intros Hin. apply Hk'.
  apply in_map_iff in Hin as (kv & Heq & Hin). apply filter_In in Hin as [Hin _].
  rewrite <- Heq. apply in_map. exact Hin.
Qed.

Lemma GameInv_put_game w g gm : GameInv w -> EntryOK g gm -> GameInv (put_game g gm w).
Proof.
  intros [H Hnd] Hok. split; [|apply map_set_NoDup_keys; exact Hnd].
  intros k v Hin. apply map_set_In_inv in Hin as [Hin|[-> ->]]; [exact (H k v Hin)|exact Hok].
Qed.

Lemma GameInv_put_from w g gm gm' :
  GameInv w -> game_of w g = Some gm -> (EntryOK g gm -> EntryOK g gm') ->
  GameInv (put_game g gm' w).
Proof.
  intros H Hg Hf. apply GameInv_put_game; [exact H|]. apply Hf. exact (GameInv_entry w g gm H Hg).
Qed.

Lemma GameInv_update_game w g f :
  GameInv w -> (forall gm, EntryOK g gm -> EntryOK g (f gm)) -> GameInv (update_game g f w).
Proof.
  intros H Hf. unfold update_game. destruct (game_of w g) as [gm|] eqn:Hg; [|exact H].
  apply (GameInv_put_from w g gm); [exact H|exact Hg|apply Hf].
Qed.

Lemma GameInv_same_games w w' : games w' = games w -> GameInv w -> GameInv w'.
Proof. intros He H. unfold GameInv. rewrite He. exact H. Qed.

Lemma GameInv_clearTimer g w : GameInv w -> GameInv (clearTimer g w).
Proof. apply GameInv_same_games. apply clearTimer_games. Qed.

Lemma GameInv_startTimer g s cb w : GameInv w -> GameInv (startTimer g s cb w).
Proof. apply GameInv_same_games. unfold startTimer. cbn [games]. apply clearTimer_games. Qed.

Lemma GameInv_with_pending p w : GameInv w -> GameInv (with_pending p w).
Proof. apply GameInv_same_games. reflexivity. Qed.

Create HintDb gameinv.
#[local] Hint Resolve GameInv_clearTimer GameInv_startTimer GameInv_with_pending
  GameInv_update_game GameInv_put_from EntryOK_set_ready EntryOK_set_placements
  EntryOK_switch_turn EntryOK_gameplay EntryOK_timeLeft EntryOK_join EntryOK_end
  EntryOK_mark_revealed : gameinv.

Ltac game_inv :=
  repeat (cbv beta zeta;
    match goal with
    | |- GameInv (snd ((match ?x with _ => _ end) _)) => destruct x eqn:?
    | |- GameInv (snd ((if ?b then _ else _) _)) => destruct b
    | |- GameInv (match ?x with _ => _ end) => destruct x eqn:?
    | |- GameInv (if ?b then _ else _) => destruct b
    | |- GameInv (snd (match ?x with _ => _ end)) => destruct x eqn:?
    | |- GameInv (snd (if ?b then _ else _)) => destruct b
    | |- GameInv (snd (_, _)) => cbn [snd]
    | |- GameInv _ => progress eauto 10 with gameinv
    end); eauto 10 with gameinv.

Lemma GameInv_startGameplayPhase g w : GameInv w -> GameInv (startGameplayPhase g w).
Proof. intros H. unfold startGameplayPhase. game_inv. Qed.
#[local] Hint Resolve GameInv_startGameplayPhase : gameinv.

Lemma GameInv_autoPlaceBombs g d w : GameInv w -> GameInv (autoPlaceBombs g d w).
Proof. intros H. unfold autoPlaceBombs. game_inv. Qed.
#[local] Hint Resolve GameInv_autoPlaceBombs : gameinv.

Lemma GameInv_confirmBombPlacement g p grid w :
  GameInv w -> GameInv (confirmBombPlacement g p grid w).
Proof. intros H. unfold confirmBombPlacement. game_inv. Qed.
#[local] Hint Resolve GameInv_confirmBombPlacement : gameinv.

Lemma GameInv_endGame g w : GameInv w -> GameInv (endGame g w).
Proof. intros H. unfold endGame. game_inv. Qed.
#[local] Hint Resolve GameInv_endGame : gameinv.

Lemma GameInv_exitGame g p w : GameInv w -> GameInv (exitGame g p w).
Proof. intros H. unfold exitGame. game_inv. Qed.
#[local] Hint Resolve GameInv_exitGame : gameinv.

Lemma GameInv_startGame g w : GameInv w -> GameInv (startGame g w).
Proof. intros H. unfold startGame. game_inv. Qed.
#[local] Hint Resolve GameInv_startGame : gameinv.

Lemma GameInv_disconnect_loop p ks w : GameInv w -> GameInv (disconnect_loop p ks w).
Proof.
  revert w. induction ks as [|k ks IH]; intros w H; cbn [disconnect_loop]; [exact H|].
  apply IH. game_inv.
Qed.

Lemma GameInv_cleanup_loop now ks w : GameInv w -> GameInv (cleanup_loop now ks w).
Proof.
  revert w. induction ks as [|k ks IH]; intros w H; cbn [cleanup_loop]; [exact H|].
  apply IH. game_inv.
Qed.

Lemma GameInv_createGame d r1 r2 now w : GameInv w -> GameInv (snd (createGame d r1 r2 now w)).
Proof.
  intros H. unfold createGame, bind, modify, ret, throw.
  destruct (parse_size (gd_size d)) as [n|] eqn:Hn; cbn [snd]; [|exact H].
  apply GameInv_put_game; [exact H|]. unfold EntryOK, grid_size_of. cbn. rewrite Hn.
  split; [reflexivity|]. split; [reflexivity|]. split; [apply repeat_length|].
  apply Forall_forall. intros row Hin. apply repeat_spec in Hin. subst. rewrite repeat_length. lia.
Qed.

Lemma GameInv_joinGame g p w : GameInv w -> GameInv (snd (joinGame g p w)).
Proof. intros H. unfold joinGame, bind, lookup_game, modify, ret, throw. game_inv. Qed.

Lemma GameInv_revealField g p x y w : GameInv w -> GameInv (snd (revealField g p x y w)).
Proof. intros H. unfold revealField, bind, lookup_game, modify, ret, throw. game_inv. Qed.

Lemma GameInv_tick_core tid w : GameInv w -> GameInv (fst (tick_core tid w)).
Proof.
  intros H. unfold tick_core.
  destruct (find _ (live w)) as [iv|]; [|exact H]. cbv zeta.
  destruct (game_of w (iv_game iv)) as [gm|] eqn:Hg; [|apply GameInv_clearTimer; exact H].
  assert (H1 : GameInv (put_game (iv_game iv) (set_state (set_timeLeft (iv_left iv - 1) (state gm)) gm)
                 (mkWorld (games w) (timers w)
                    (map (fun iv' => if Nat.eqb (iv_id iv') tid
                                     then mkIv (iv_id iv') (iv_game iv') (iv_left iv - 1) (iv_cb iv')
                                     else iv') (live w)) (next_iv w) (pending w)))).
  { apply GameInv_put_game; [exact H|]. apply EntryOK_timeLeft. exact (GameInv_entry w _ gm H Hg). }
  destruct (iv_left iv - 1 <=? 0); cbn [fst]; [apply GameInv_clearTimer|]; exact H1.
Qed.

Lemma GameInv_tick tid d w : GameInv w -> GameInv (tick tid d w).
Proof.
  intros H. pose proof (GameInv_tick_core tid w H) as Hc. unfold tick.
  destruct (tick_core tid w) as [w1 [[g cb]|]]; cbn [fst] in Hc; [|exact Hc].
  destruct cb; cbn [run_cb]; [eauto with gameinv|].
  unfold handleRoundTimeout. destruct (game_of w1 g); exact Hc.
Qed.

#[local] Hint Resolve GameInv_createGame GameInv_joinGame GameInv_revealField GameInv_tick
  GameInv_disconnect_loop GameInv_cleanup_loop : gameinv.

Lemma GameInv_step w e : GameInv w -> GameInv (step w e).
Proof.
  intros H. destruct e; cbn [step].
  - apply GameInv_createGame. exact H.
  - unfold on_join. pose proof (GameInv_joinGame gid pid w H).
    destruct (joinGame gid pid w) as [[] w'] eqn:?; cbn [snd] in *; game_inv.
  - unfold on_confirm. game_inv.
  - unfold on_reveal. pose proof (GameInv_revealField gid pid x y w H).
    destruct (revealField gid pid x y w) as [[|[]] w'] eqn:?; cbn [snd] in *; game_inv.
  - game_inv.
  - unfold handlePlayerDisconnect. game_inv.
  - game_inv.
  - unfold fire_delete. destruct (pending w) as [|g rest]; [exact H|].
    apply GameInv_with_pending. destruct H as [H Hnd]. cbn [games with_games].
    split; [|apply map_delete_NoDup_keys; exact Hnd].
    intros k v Hin. unfold map_delete in Hin. apply filter_In in Hin as [Hin _]. exact (H k v Hin).
  - unfold cleanupOldGames. game_inv.
Qed.

Lemma reachable_GameInv w : reachable w -> GameInv w.
Proof.
  intros (es & <-). assert (H0 : GameInv init_world) by (split; [intros k v []|constructor]).
  revert H0. generalize init_world. induction es as [|e es IH]; intros w0 H0; [exact H0|].
  cbn [run fold_left]. apply IH. apply GameInv_step. exact H0.
Qed.

Lemma NoDup_keys_get {V} (k : string) (v : V) (m : list (string * V)) :
  NoDup (map fst m) -> In (k, v) m -> map_get k m = Some v.
Proof.
  induction m as [|[k' v'] m IH]; cbn [map fst map_get]; intros Hnd Hin; [destruct Hin|].
  inversion Hnd as [|? ? Hk' Hm]; subst.
  destruct Hin as [Heq|Hin].
  - injection Heq as -> ->. rewrite String.eqb_refl. reflexivity.
  - destruct (String.eqb_spec k k') as [->|_]; [|exact (IH Hm Hin)].
    exfalso. apply Hk'. apply (in_map fst) in Hin. exact Hin.
Qed.

(** X14.  In every reachable state the registry holds each id at most
    once, and every stored match is the one [this.games.get] returns for
    its key, carries that key as its [id], has no opponent while it is
    Waiting, and has a revealed grid of exactly [n] rows of at least [n]
    slots each, [n] being its board size. *)
Theorem X14_registry_invariant (w : World) :
  reachable w ->
  NoDup (map fst (games w)) /\
  forall k gm, In (k, gm) (games w) ->
    game_of w k = Some gm /\ id gm = k /\
    (status gm = Waiting -> opponent gm = None) /\
    List.length (revealedFields (state gm)) = grid_size_of gm /\
    Forall (fun row => (grid_size_of gm <= List.length row)%nat) (revealedFields (state gm)).
Proof.
  intros Hr. destruct (reachable_GameInv w Hr) as [H Hnd]. split; [exact Hnd|].
  intros k gm Hin. split; [apply NoDup_keys_get; assumption|]. exact (H k gm Hin).
Qed.

Lemma X14_registry_invariant_witness :
  reachable w_play /\ NoDup (map fst (games w_play)).
Proof.
  split; [exact reachable_w_play|]. exact (proj1 (X14_registry_invariant w_play reachable_w_play)).
Defined.

(** ** Open matches can be joined *)

Lemma listed_entry w o :
  GameInv w -> In o (getOpenGames w) ->
  exists gm, game_of w (o_id o) = Some gm /\ project gm = o /\ status gm = Waiting /\
    opponent gm = None.
Proof.
  intros [H Hnd] Hin. unfold getOpenGames in Hin.
  apply (Permutation_in _ (sort_desc_perm _)) in Hin.
  apply in_map_iff in Hin as (gm & Hp & Hin). apply filter_In in Hin as [Hin Hw].
  apply in_map_iff in Hin as ([k gm0] & Heq & Hin). cbn [snd] in Heq. subst gm0.
  destruct (H k gm Hin) as (Hid & Hop & _).
  unfold is_waiting in Hw. destruct (status gm) eqn:Hs; try discriminate.
  exists gm. assert (Hk : o_id o = k) by (rewrite <- Hp; exact Hid). rewrite Hk.
  split; [apply NoDup_keys_get; assumption|]. split; [exact Hp|]. split; [exact Hs|].
  apply Hop. reflexivity.
Qed.

(** X15.  In a reachable state every match listed by [getOpenGames] is
    the registry entry stored under the listed id, and any player other than
    its creator can join it: [joinGame] succeeds, and so does the
    'join-game' handler when the player id is non-empty, the bet equals the
    listed non-zero bet and the funds check passes, making the player the
    opponent and the match InProgress. *)
Theorem X15_listed_matches_joinable (w : World) (o : OpenGame) :
  reachable w -> In o (getOpenGames w) ->
  exists gm, game_of w (o_id o) = Some gm /\ project gm = o /\
    forall p, p <> o_creator o ->
      let gm' := set_status InProgress (set_opponent (Some p) gm) in
      joinGame (o_id o) p w = (inr gm', put_game (o_id o) gm' w) /\
      (p <> ""%string -> o_betAmount o <> 0 ->
         game_of (on_join (o_id o) p (o_betAmount o) true w) (o_id o) = Some gm').
Proof.
  intros Hr Hin. destruct (listed_entry w o (reachable_GameInv w Hr) Hin) as (gm & Hg & Hp & Hs & Ho).
  exists gm. split; [exact Hg|]. split; [exact Hp|]. intros p Hne gm'.
  assert (Hc : String.eqb (creator gm) p = false)
    by (apply String.eqb_neq; rewrite <- Hp in Hne; cbn in Hne; congruence).
  assert (Hj : joinGame (o_id o) p w = (inr gm', put_game (o_id o) gm' w)).
  { unfold joinGame, bind, lookup_game, modify, ret, throw. cbv beta.
    rewrite Hg, Ho. cbn [truthy_str]. rewrite Hc. reflexivity. }
  split; [exact Hj|]. intros He Hb.
  assert (Hbet : o_betAmount o = betAmount gm) by (rewrite <- Hp; reflexivity).
  unfold on_join. rewrite Hg, Hs, Ho. cbn [truthy_str]. rewrite Hc.
  rewrite (proj2 (String.eqb_neq p "") He).
  rewrite <- Hbet, (proj2 (Z.eqb_neq _ 0) Hb), Z.eqb_refl. cbn [orb negb].
  rewrite Hj. unfold startGame. rewrite game_of_put_game. cbv iota.
  rewrite game_of_startTimer. apply game_of_put_game.
Qed.

Lemma X15_listed_matches_joinable_witness :
  reachable w_created /\ getOpenGames w_created <> [] /\
  exists gm, game_of w_created gidA = Some gm /\ project gm = hd (project dummy_game) (getOpenGames w_created).
Proof.
  assert (Hr : reachable w_created) by (eexists; unfold w_created; reflexivity).
  assert (Hin : In (hd (project dummy_game) (getOpenGames w_created)) (getOpenGames w_created))
    by (vm_compute; left; reflexivity).
  split; [exact Hr|]. split; [vm_compute; discriminate|].
  destruct (X15_listed_matches_joinable w_created _ Hr Hin) as (gm & Hg & Hp & _).
  exists gm. split; [|exact Hp].
  replace gidA with (o_id (hd (project dummy_game) (getOpenGames w_created)))
    by (vm_compute; reflexivity).
  exact Hg.
Defined.

(** ** Reveals inside the board *)

(** X16.  In a reachable state, when the player to move reveals a cell of a
    match in the Gameplay phase whose row index is below the board size,
    the only error [revealField] can throw is 'Field already revealed'
    (never the TypeError of an off-board row), and it throws it exactly
    when that slot already holds [true]. *)
Theorem X16_inboard_reveal (w : World) (g p : string) (x y : nat) (gm : Game) :
  reachable w -> game_of w g = Some gm -> phase (state gm) = Gameplay ->
  currentPlayer (state gm) = Some p -> (x < grid_size_of gm)%nat ->
  exists row, nth_error (revealedFields (state gm)) x = Some row /\
    (truthy_cell (nth_error row y) = true -> revealField g p x y w = (inl ErrRevealed, w)) /\
    (truthy_cell (nth_error row y) = false -> exists r w', revealField g p x y w = (inr r, w')).
Proof.
  intros Hr Hg Hph Hcur Hx.
  destruct (GameInv_entry w g gm (reachable_GameInv w Hr) Hg) as (_ & _ & Hlen & _).
  destruct (nth_error (revealedFields (state gm)) x) as [row|] eqn:Hrow;
    [|apply nth_error_None in Hrow; lia].
  exists row. split; [reflexivity|].
  unfold revealField, bind, lookup_game, throw, modify, ret. cbv beta.
  rewrite Hg, Hph, Hcur. cbn [Phase_eqb negb opt_is]. rewrite String.eqb_refl. cbn [negb].
  rewrite Hrow. split.
  - intros Ht. rewrite Ht. reflexivity.
  - intros Hf. rewrite Hf. destruct (has_bomb _ x y); eexists; eexists; reflexivity.
Qed.

Lemma X16_inboard_reveal_witness :
  reachable w_play /\ game_of w_play gidA = Some game_play /\
  phase (state game_play) = Gameplay /\ currentPlayer (state game_play) = Some "alice"%string /\
  (0 < grid_size_of game_play)%nat /\
  exists row, nth_error (revealedFields (state game_play)) 0 = Some row.
Proof.
  assert (Hg : game_of w_play gidA = Some game_play) by (vm_compute; reflexivity).
  assert (Hph : phase (state game_play) = Gameplay) by (vm_compute; reflexivity).
  assert (Hc : currentPlayer (state game_play) = Some "alice"%string) by (vm_compute; reflexivity).
  assert (Hx : (0 < grid_size_of game_play)%nat) by (apply Nat.ltb_lt; vm_compute; reflexivity).
  split; [exact reachable_w_play|]. split; [exact Hg|]. split; [exact Hph|]. split; [exact Hc|].
  split; [exact Hx|].
  destruct (X16_inboard_reveal w_play gidA "alice" 0 0 game_play reachable_w_play Hg Hph Hc Hx)
    as (row & Hrow & _).
  exists row. exact Hrow.
Defined.

(** ** A bomb whose payout fails *)

(** X17.  When the player to move in a Gameplay match reveals an unrevealed
    cell holding the opponent's bomb, and the opponent is a non-empty name
    but the payout to them fails, the reveal handler never reaches
    [endGame]: the match keeps its phase and its player to move, only the
    cell is marked revealed, and the timers and the pending removals are
    left as they were, so the round timer keeps running. *)
Theorem X17_failed_payout_keeps_match (w : World) (g p : string) (x y : nat)
    (gm : Game) (row : list (option bool)) :
  game_of w g = Some gm -> phase (state gm) = Gameplay ->
  currentPlayer (state gm) = Some p ->
  nth_error (revealedFields (state gm)) x = Some row ->
  truthy_cell (nth_error row y) = false ->
  has_bomb (map_get (key_of (opponent_of gm p)) (bombPlacements gm)) x y = true ->
  truthy_str (opponent_of gm p) = true ->
  let w' := on_reveal p g x y false w in
  game_of w' g = Some (mark_revealed x y gm) /\
  phase (state (mark_revealed x y gm)) = Gameplay /\
  currentPlayer (state (mark_revealed x y gm)) = Some p /\
  revealed_at w' g x y = true /\
  timers w' = timers w /\ live w' = live w /\ pending w' = pending w.
Proof.
  intros Hg Hph Hcur Hrow Hcell Hbomb Hopp w'.
  pose proof (revealField_ok w g p x y gm row Hg Hph Hcur Hrow Hcell) as Hrev.
  cbv zeta in Hrev. rewrite Hbomb in Hrev.
  assert (Hw : w' = put_game g (mark_revealed x y gm) w).
  { unfold w', on_reveal. rewrite Hrev. rewrite game_of_put_game, Hopp. reflexivity. }
  rewrite Hw. split; [apply game_of_put_game|]. split; [exact Hph|].
  split; [exact Hcur|]. split; [apply revealed_after_mark with row; exact Hrow|].
  split; [reflexivity|]. split; reflexivity.
Qed.

Lemma X17_failed_payout_keeps_match_witness :
  game_of w_play gidA = Some game_play /\
  game_of (on_reveal "alice" gidA 0 4 false w_play) gidA =
    Some (mark_revealed 0 4 game_play).
Proof.
  assert (Hg : game_of w_play gidA = Some game_play) by (vm_compute; reflexivity).
  split; [exact Hg|].
  refine (proj1 (X17_failed_payout_keeps_match w_play gidA "alice" 0 4 game_play
                   (repeat (Some false) 5) Hg _ _ _ _ _ _));
    vm_compute; reflexivity.
Defined.
